(** * Signed download URLs of viur-core ([utils.py])

    A shallow embedding of [hmacSign], [hmacVerify] and [downloadUrlFor]
    together with the library functions they call ([str.encode],
    [urlsafe_b64encode], [hmac.new(...).hexdigest()], [hmac.compare_digest],
    [datetime + timedelta], [strftime]).

    Conventions
    - a Python [bytes] object is a list of integers in [0, 255];
    - a Python [str] is a list of Unicode code points in [0, 0x10FFFF]
      (lone surrogates included, as in Python);
    - a Python call that may raise is a value of [result];
    - [conf] and the clock are read-only inputs: the functions take the
      configuration and the reading of [datetime.now()] as arguments.

    The verifier of issued tokens lives outside [utils.py]; it is modelled
    from the specification ([verifyDownloadURL]). *)

From Stdlib Require Import String Ascii ZArith List Lia Bool.
Import ListNotations.
Open Scope Z_scope.

Definition bytes := list Z.
Definition str := list Z.

Definition is_byte (b : Z) : Prop := 0 <= b < 256.

(** A string literal of the source, as a [str]. *)
Fixpoint lit (s : string) : str :=
  match s with
  | EmptyString => []
  | String c s' => Z.of_N (N_of_ascii c) :: lit s'
  end.
Arguments lit s%_string.

(** ** Exceptions *)

Inductive exn : Type :=
| AssertionError (msg : str)
| UnicodeEncodeError
| UnicodeDecodeError
| TypeError
| OverflowError.

Inductive result (A : Type) : Type :=
| Ok (a : A)
| Raise (e : exn).
Arguments Ok {A} a.
Arguments Raise {A} e.

Definition bind {A B} (r : result A) (k : A -> result B) : result B :=
  match r with
  | Ok a => k a
  | Raise e => Raise e
  end.

Notation "x <- r ;; k" := (bind r (fun x => k))
  (at level 61, r at next level, right associativity).

Definition raises {A} (r : result A) : Prop := exists e, r = Raise e.

(** ** SHA3-384 ([hashlib.sha3_384]) *)

Module Keccak.

Definition mask64 : Z := 0xFFFFFFFFFFFFFFFF.

Definition rotl64 (x n : Z) : Z :=
  Z.land (Z.lor (Z.shiftl x n) (Z.shiftr x (64 - n))) mask64.

Definition lanes : list Z := map Z.of_nat (seq 0 25).

Definition lane (st : list Z) (i : Z) : Z := nth (Z.to_nat i) st 0.

Definition rot_offsets : list Z :=
  [0; 1; 62; 28; 27; 36; 44; 6; 55; 20; 3; 10; 43; 25; 39;
   41; 45; 15; 21; 8; 18; 2; 61; 56; 14].

Definition round_constants : list Z :=
  [0x0000000000000001; 0x0000000000008082; 0x800000000000808A;
   0x8000000080008000; 0x000000000000808B; 0x0000000080000001;
   0x8000000080008081; 0x8000000000008009; 0x000000000000008A;
   0x0000000000000088; 0x0000000080008009; 0x000000008000000A;
   0x000000008000808B; 0x800000000000008B; 0x8000000000008089;
   0x8000000000008003; 0x8000000000008002; 0x8000000000000080;
   0x000000000000800A; 0x800000008000000A; 0x8000000080008081;
   0x8000000000008080; 0x0000000080000001; 0x8000000080008008].

Definition theta (st : list Z) : list Z :=
  let C x := fold_left Z.lxor
               (map (fun y => lane st (x + 5 * y)) [1; 2; 3; 4]) (lane st x) in
  let D x := Z.lxor (C ((x + 4) mod 5)) (rotl64 (C ((x + 1) mod 5)) 1) in
  map (fun i => Z.lxor (lane st i) (D (i mod 5))) lanes.

Definition rho_pi (st : list Z) : list Z :=
  map (fun j =>
         let X := j mod 5 in
         let Y := j / 5 in
         let src := (X + 3 * Y) mod 5 + 5 * X in
         rotl64 (lane st src) (lane rot_offsets src)) lanes.

Definition chi (st : list Z) : list Z :=
  map (fun j =>
         let x := j mod 5 in
         let y := j / 5 in
         Z.lxor (lane st j)
           (Z.land (Z.lxor (lane st ((x + 1) mod 5 + 5 * y)) mask64)
                   (lane st ((x + 2) mod 5 + 5 * y)))) lanes.

Definition iota (rc : Z) (st : list Z) : list Z :=
  match st with
  | [] => []
  | l0 :: rest => Z.lxor l0 rc :: rest
  end.

Definition round (st : list Z) (rc : Z) : list Z :=
  iota rc (chi (rho_pi (theta st))).

Definition keccak_f (st : list Z) : list Z :=
  fold_left round round_constants st.

(** Rate of SHA3-384 in bytes (also [hashlib.sha3_384().block_size]). *)
Definition rate : nat := 104.

Definition le64 (bs : bytes) (i : Z) : Z :=
  fold_right (fun k acc => nth (Z.to_nat (8 * i + k)) bs 0 + 256 * acc) 0
    [0; 1; 2; 3; 4; 5; 6; 7].

Definition xor_block (st : list Z) (blk : bytes) : list Z :=
  map (fun i => if i <? 13 then Z.lxor (lane st i) (le64 blk i) else lane st i)
      lanes.

Definition pad (msg : bytes) : bytes :=
  let q := (rate - Nat.modulo (length msg) rate)%nat in
  if (q =? 1)%nat then msg ++ [0x86]
  else msg ++ [0x06] ++ repeat 0 (q - 2) ++ [0x80].

Fixpoint absorb (n : nat) (st : list Z) (m : bytes) : list Z :=
  match n with
  | O => st
  | S n' => absorb n' (keccak_f (xor_block st (firstn rate m))) (skipn rate m)
  end.

Definition squeeze (st : list Z) : bytes :=
  map (fun i => (lane st (i / 8) / 2 ^ (8 * (i mod 8))) mod 256)
      (map Z.of_nat (seq 0 48)).

Definition sha3_384 (msg : bytes) : bytes :=
  let p := pad msg in
  squeeze (absorb (Nat.div (length p) rate) (repeat 0 25) p).

End Keccak.

(** ** HMAC ([hmac.new(key, msg, digestmod).hexdigest()]) *)

Definition hmac_digest (H : bytes -> bytes) (block_size : nat)
    (key msg : bytes) : bytes :=
  let key1 := if (block_size <? length key)%nat then H key else key in
  let key2 := key1 ++ repeat 0 (block_size - length key1) in
  H (map (Z.lxor 0x5C) key2 ++ H (map (Z.lxor 0x36) key2 ++ msg)).

Definition hmac_sha3_384 (key msg : bytes) : bytes :=
  hmac_digest Keccak.sha3_384 Keccak.rate key msg.

Definition hexchar (d : Z) : Z :=
  if d <? 10 then 48 + d else 87 + d.

Definition hexlify (bs : bytes) : str :=
  flat_map (fun b => [hexchar (b / 16); hexchar (b mod 16)]) bs.

(** ** [str.encode("UTF-8")] and [bytes.decode] *)

Definition is_surrogate (c : Z) : bool := (0xD800 <=? c) && (c <? 0xE000).

(** One code point; lone surrogates are refused ("surrogates not allowed").
    Integers outside [0, 0x10FFFF] are not code points and never occur in a
    [str]; they are refused as well. *)
Definition utf8_encode_cp (c : Z) : result bytes :=
  if c <? 0 then Raise UnicodeEncodeError
  else if c <? 0x80 then Ok [c]
  else if c <? 0x800 then Ok [0xC0 + c / 64; 0x80 + c mod 64]
  else if c <? 0x10000 then
    if is_surrogate c then Raise UnicodeEncodeError
    else Ok [0xE0 + c / 4096; 0x80 + (c / 64) mod 64; 0x80 + c mod 64]
  else if c <? 0x110000 then
    Ok [0xF0 + c / 262144; 0x80 + (c / 4096) mod 64;
        0x80 + (c / 64) mod 64; 0x80 + c mod 64]
  else Raise UnicodeEncodeError.

Fixpoint encode_utf8 (s : str) : result bytes :=
  match s with
  | [] => Ok []
  | c :: s' =>
      b <- utf8_encode_cp c ;;
      bs <- encode_utf8 s' ;;
      Ok (b ++ bs)
  end.

Definition is_cont (b : Z) : bool := (0x80 <=? b) && (b <? 0xC0).

(** Strict UTF-8 decoding: overlong forms, surrogates and values above
    0x10FFFF are refused. *)
Fixpoint decode_utf8 (bs : bytes) : option str :=
  match bs with
  | [] => Some []
  | b0 :: r =>
      if (0 <=? b0) && (b0 <? 0x80) then option_map (cons b0) (decode_utf8 r)
      else
        match r with
        | [] => None
        | b1 :: r1 =>
            if (0xC2 <=? b0) && (b0 <? 0xE0) then
              if is_cont b1
              then option_map (cons ((b0 - 0xC0) * 64 + (b1 - 0x80)))
                     (decode_utf8 r1)
              else None
            else
              match r1 with
              | [] => None
              | b2 :: r2 =>
                  if (0xE0 <=? b0) && (b0 <? 0xF0) then
                    let c := (b0 - 0xE0) * 4096 + (b1 - 0x80) * 64
                             + (b2 - 0x80) in
                    if is_cont b1 && is_cont b2 && (0x800 <=? c)
                       && negb (is_surrogate c)
                    then option_map (cons c) (decode_utf8 r2)
                    else None
                  else
                    match r2 with
                    | [] => None
                    | b3 :: r3 =>
                        let c := (b0 - 0xF0) * 262144 + (b1 - 0x80) * 4096
                                 + (b2 - 0x80) * 64 + (b3 - 0x80) in
                        if (0xF0 <=? b0) && (b0 <? 0xF5) && is_cont b1
                           && is_cont b2 && is_cont b3 && (0x10000 <=? c)
                           && (c <? 0x110000)
                        then option_map (cons c) (decode_utf8 r3)
                        else None
                    end
              end
        end
  end.

(** [PyUnicode_IS_ASCII]. *)
Definition is_ascii (s : list Z) : bool :=
  forallb (fun c => (0 <=? c) && (c <? 128)) s.

(** [bytes.decode("ASCII")]. *)
Definition decode_ascii (bs : bytes) : result str :=
  if is_ascii bs then Ok bs else Raise UnicodeDecodeError.

(** ** [base64.urlsafe_b64encode] *)

Definition b64char (i : Z) : Z :=
  if i <? 26 then 65 + i
  else if i <? 52 then 71 + i
  else if i <? 62 then i - 4
  else if i =? 62 then 45
  else 95.

Fixpoint urlsafe_b64encode (bs : bytes) : bytes :=
  match bs with
  | [] => []
  | [a] => [b64char (a / 4); b64char (a mod 4 * 16); 61; 61]
  | [a; b] =>
      [b64char (a / 4); b64char (a mod 4 * 16 + b / 16);
       b64char (b mod 16 * 4); 61]
  | a :: b :: c :: r =>
      b64char (a / 4) :: b64char (a mod 4 * 16 + b / 16)
      :: b64char (b mod 16 * 4 + c / 64) :: b64char (c mod 64)
      :: urlsafe_b64encode r
  end.

(** ** Python values reaching [hmacSign] and ["%s" % ...] *)

(** Objects that are not [bytes]: the ones [str()] is applied to. *)
Inductive pyobj : Type :=
| OStr (s : str)
| OInt (n : Z)
| OBool (b : bool)
| ONone.

(** The argument [data : Any] of [hmacSign]: [isinstance(data, bytes)]
    holds of [VBytes] only. *)
Inductive pyval : Type :=
| VBytes (b : bytes)
| VObj (o : pyobj).

Fixpoint decimal_aux (fuel : nat) (n : Z) (acc : str) : str :=
  match fuel with
  | O => acc
  | S fuel' =>
      let acc' := (48 + n mod 10) :: acc in
      if n <? 10 then acc' else decimal_aux fuel' (n / 10) acc'
  end.

(** [str(n)] for an integer: a number has no more decimal than binary
    digits, so the fuel never runs out. *)
Definition decimal (n : Z) : str :=
  if n <? 0 then 45 :: decimal_aux (S (Z.to_nat (Z.log2 (- n)))) (- n) []
  else decimal_aux (S (Z.to_nat (Z.log2 n))) n [].

(** [str(o)], also what ["%s" % o] inserts. *)
Definition py_str (o : pyobj) : str :=
  match o with
  | OStr s => s
  | OInt n => decimal n
  | OBool true => lit "True"
  | OBool false => lit "False"
  | ONone => lit "None"
  end.

(** ** [hmacSign], [hmacVerify] *)

(** The part of [conf] the signing functions read:
    [conf["viur.file.hmacKey"]], [None] until a key is configured. *)
Record Conf : Type := { viur_file_hmacKey : option bytes }.

Definition hmacSign (conf : Conf) (data : pyval) : result str :=
  match viur_file_hmacKey conf with
  | None => Raise (AssertionError (lit "No hmac-key set!"))
  | Some key =>
      data' <- match data with
               | VBytes b => Ok b
               | VObj o => encode_utf8 (py_str o)
               end ;;
      Ok (hexlify (hmac_sha3_384 key data'))
  end.

Fixpoint str_eqb (a b : list Z) : bool :=
  match a, b with
  | [], [] => true
  | x :: a', y :: b' => (x =? y) && str_eqb a' b'
  | _, _ => false
  end.

(** [hmac.compare_digest] on two [str] arguments: a string with a
    non-ASCII character is refused with a [TypeError]. *)
Definition compare_digest (a b : str) : result bool :=
  if is_ascii a && is_ascii b then Ok (str_eqb a b) else Raise TypeError.

Definition hmacVerify (conf : Conf) (data : pyval) (signature : str)
    : result bool :=
  s <- hmacSign conf data ;;
  compare_digest s signature.

(** ** [datetime] and [timedelta] *)

Record timedelta : Type :=
  { td_days : Z; td_seconds : Z; td_microseconds : Z }.

(** [timedelta(days, seconds, microseconds)] on integers: carries are
    propagated so that [0 <= seconds < 86400] and
    [0 <= microseconds < 1000000]. *)
Definition timedelta_new (days seconds microseconds : Z) : timedelta :=
  let s := seconds + microseconds / 1000000 in
  {| td_days := days + s / 86400;
     td_seconds := s mod 86400;
     td_microseconds := microseconds mod 1000000 |}.

Definition timedelta_hours (h : Z) : timedelta := timedelta_new 0 (h * 3600) 0.
Definition timedelta_minutes (m : Z) : timedelta := timedelta_new 0 (m * 60) 0.

(** [timedelta.__bool__]. *)
Definition timedelta_bool (td : timedelta) : bool :=
  negb ((td_days td =? 0) && (td_seconds td =? 0)
        && (td_microseconds td =? 0)).

(** Truth value of [expires : Union[timedelta, None]]. *)
Definition truthy (expires : option timedelta) : bool :=
  match expires with
  | None => false
  | Some td => timedelta_bool td
  end.

Record datetime : Type :=
  { year : Z; month : Z; day : Z;
    hour : Z; minute : Z; second : Z; microsecond : Z }.

Definition is_leap (y : Z) : bool :=
  (y mod 4 =? 0) && (negb (y mod 100 =? 0) || (y mod 400 =? 0)).

Definition days_before_year (y : Z) : Z :=
  let y := y - 1 in
  y * 365 + y / 4 - y / 100 + y / 400.

Definition DAYS_IN_MONTH : list Z :=
  [-1; 31; 28; 31; 30; 31; 30; 31; 31; 30; 31; 30; 31].

Definition DAYS_BEFORE_MONTH : list Z :=
  [-1; 0; 31; 59; 90; 120; 151; 181; 212; 243; 273; 304; 334].

Definition tbl (t : list Z) (i : Z) : Z := nth (Z.to_nat i) t 0.

Definition days_in_month (y m : Z) : Z :=
  if (m =? 2) && is_leap y then 29 else tbl DAYS_IN_MONTH m.

Definition days_before_month (y m : Z) : Z :=
  tbl DAYS_BEFORE_MONTH m + (if (2 <? m) && is_leap y then 1 else 0).

Definition ymd2ord (y m d : Z) : Z :=
  days_before_year y + days_before_month y m + d.

Definition DI400Y : Z := 146097.
Definition DI100Y : Z := 36524.
Definition DI4Y : Z := 1461.
Definition MAXORDINAL : Z := 3652059.

Definition ord2ymd (n : Z) : Z * Z * Z :=
  let n := n - 1 in
  let n400 := n / DI400Y in
  let n := n mod DI400Y in
  let y := n400 * 400 + 1 in
  let n100 := n / DI100Y in
  let n := n mod DI100Y in
  let n4 := n / DI4Y in
  let n := n mod DI4Y in
  let n1 := n / 365 in
  let n := n mod 365 in
  let y := y + n100 * 100 + n4 * 4 + n1 in
  if (n1 =? 4) || (n100 =? 4) then (y - 1, 12, 31)
  else
    let leapyear := (n1 =? 3) && (negb (n4 =? 24) || (n100 =? 3)) in
    let m := (n + 50) / 32 in
    let preceding :=
      tbl DAYS_BEFORE_MONTH m + (if (2 <? m) && leapyear then 1 else 0) in
    if n <? preceding then
      let m := m - 1 in
      let preceding :=
        preceding
        - (tbl DAYS_IN_MONTH m + (if (m =? 2) && leapyear then 1 else 0)) in
      (y, m, n - preceding + 1)
    else (y, m, n - preceding + 1).

Definition toordinal (dt : datetime) : Z :=
  ymd2ord (year dt) (month dt) (day dt).

(** [datetime + timedelta]. The sum is formed as a [timedelta] counted from
    ordinal 0; a day count outside [1, MAXORDINAL] raises [OverflowError]
    (the [timedelta] constructor's own limit of 999999999 days lies outside
    that interval and raises the same exception). *)
Definition datetime_add (self : datetime) (other : timedelta)
    : result datetime :=
  let delta :=
    timedelta_new (toordinal self)
      (hour self * 3600 + minute self * 60 + second self)
      (microsecond self) in
  let delta :=
    timedelta_new (td_days delta + td_days other)
      (td_seconds delta + td_seconds other)
      (td_microseconds delta + td_microseconds other) in
  let h := td_seconds delta / 3600 in
  let rem := td_seconds delta mod 3600 in
  if (0 <? td_days delta) && (td_days delta <=? MAXORDINAL) then
    let '(y, m, d) := ord2ymd (td_days delta) in
    Ok {| year := y; month := m; day := d;
          hour := h; minute := rem / 60; second := rem mod 60;
          microsecond := td_microseconds delta |}
  else Raise OverflowError.

Definition pad2 (n : Z) : str := [48 + n / 10; 48 + n mod 10].

(** [strftime("%Y%m%d%H%M")]. The C library prints [%Y] without padding,
    so the year has four digits from the year 1000 on. *)
Definition strftime_YmdHM (dt : datetime) : str :=
  decimal (year dt) ++ pad2 (month dt) ++ pad2 (day dt)
  ++ pad2 (hour dt) ++ pad2 (minute dt).

(** ** [downloadUrlFor] *)

(** [now] is the reading of [datetime.now()], taken when the expiry is
    computed. *)
Definition downloadUrlFor (conf : Conf) (now : datetime)
    (folder fileName : str) (derived : bool) (expires : option timedelta)
    : result str :=
  let filePath :=
    if derived then folder ++ lit "/derived/" ++ fileName
    else folder ++ lit "/source/" ++ fileName in
  stamp <- (if truthy expires then
              match expires with
              | Some td =>
                  dt <- datetime_add now td ;; Ok (OStr (strftime_YmdHM dt))
              | None => Raise TypeError
              end
            else Ok (OInt 0)) ;;
  let sigStr := filePath ++ [0] ++ py_str stamp in
  sigStr <- encode_utf8 sigStr ;;
  let sigStr := urlsafe_b64encode sigStr in
  resstr <- hmacSign conf (VBytes sigStr) ;;
  path <- decode_ascii sigStr ;;
  Ok (lit "/file/download/" ++ path ++ lit "?sig=" ++ resstr).

(** The defaults of the signature:
    [derived = False], [expires = timedelta(hours=1)]. *)
Definition default_derived : bool := false.
Definition default_expires : option timedelta := Some (timedelta_hours 1).

(** A call that passes only [folder] and [fileName]. *)
Definition downloadUrlFor_defaults (conf : Conf) (now : datetime)
    (folder fileName : str) : result str :=
  downloadUrlFor conf now folder fileName default_derived default_expires.

(** ** Verification of a presented token *)

Definition b64val (c : Z) : option Z :=
  if (65 <=? c) && (c <=? 90) then Some (c - 65)
  else if (97 <=? c) && (c <=? 122) then Some (c - 71)
  else if (48 <=? c) && (c <=? 57) then Some (c + 4)
  else if c =? 45 then Some 62
  else if c =? 95 then Some 63
  else None.

(** Modelled from the spec: base64url decoding, the inverse of
    [urlsafe_b64encode] that the absent verifier applies to [encodedPath];
    anything that is not padded base64url text is undecodable. *)
Fixpoint urlsafe_b64decode (cs : list Z) : option bytes :=
  match cs with
  | [] => Some []
  | c0 :: c1 :: c2 :: c3 :: r =>
      match b64val c0, b64val c1 with
      | Some v0, Some v1 =>
          if (c2 =? 61) && (c3 =? 61) then
            match r with
            | [] => Some [v0 * 4 + v1 / 16]
            | _ => None
            end
          else
            match b64val c2 with
            | Some v2 =>
                if c3 =? 61 then
                  match r with
                  | [] => Some [v0 * 4 + v1 / 16; v1 mod 16 * 16 + v2 / 4]
                  | _ => None
                  end
                else
                  match b64val c3 with
                  | Some v3 =>
                      option_map
                        (fun bs => (v0 * 4 + v1 / 16)
                                   :: (v1 mod 16 * 16 + v2 / 4)
                                   :: (v2 mod 4 * 64 + v3) :: bs)
                        (urlsafe_b64decode r)
                  | None => None
                  end
            | None => None
            end
      | _, _ => None
      end
  | _ => None
  end.

(** [s.split(sep)] for a one-character separator. *)
Fixpoint str_split (sep : Z) (s : str) : list str :=
  match s with
  | [] => [[]]
  | c :: r =>
      if c =? sep then [] :: str_split sep r
      else
        match str_split sep r with
        | p :: ps => (c :: p) :: ps
        | [] => [[c]]
        end
  end.

(** Modelled from the spec: the payload of a token, "decodes [encodedPath]
    from base64url, splits on the NUL separator into [filePath] and
    [expiryStamp]"; a payload that is not exactly these two fields has the
    wrong structure. *)
Definition decode_payload (encodedPath : str) : option (str * str) :=
  match urlsafe_b64decode encodedPath with
  | Some raw =>
      match decode_utf8 raw with
      | Some payload =>
          match str_split 0 payload with
          | [fp; stamp] => Some (fp, stamp)
          | _ => None
          end
      | None => None
      end
  | None => None
  end.

Definition digit (c : Z) : option Z :=
  if (48 <=? c) && (c <=? 57) then Some (c - 48) else None.

Fixpoint number (acc : Z) (cs : str) : option Z :=
  match cs with
  | [] => Some acc
  | c :: r =>
      match digit c with
      | Some d => number (10 * acc + d) r
      | None => None
      end
  end.

(** Modelled from the spec: "parse as a minute-granularity timestamp"
    [YYYYMMDDHHMM]: twelve digits that name a calendar minute. The parsed
    time has no seconds. *)
Definition parse_stamp (s : str) : option datetime :=
  match s with
  | [y1; y2; y3; y4; m1; m2; d1; d2; h1; h2; n1; n2] =>
      match number 0 [y1; y2; y3; y4], number 0 [m1; m2], number 0 [d1; d2],
            number 0 [h1; h2], number 0 [n1; n2] with
      | Some y, Some m, Some d, Some h, Some n =>
          if (1 <=? y) && (1 <=? m) && (m <=? 12) && (1 <=? d)
             && (d <=? days_in_month y m) && (h <=? 23) && (n <=? 59)
          then Some {| year := y; month := m; day := d; hour := h;
                       minute := n; second := 0; microsecond := 0 |}
          else None
      | _, _, _, _, _ => None
      end
  | _ => None
  end.

(** The calendar minute a time falls in, counted from ordinal day 0. *)
Definition minute_index (dt : datetime) : Z :=
  (toordinal dt * 24 + hour dt) * 60 + minute dt.

Record Verdict : Type := { valid : bool; filePath : option str }.

Definition invalid : Verdict := {| valid := false; filePath := None |}.

(** Modelled from the spec: [verifyDownloadURL], which is not part of
    [utils.py]. The signature is checked with [hmacVerify]; the payload is
    decoded; the sentinel ["0"] never expires; otherwise the token is valid
    iff the current time is at or before the expiry stamp, both taken to the
    minute ("a token is still usable in its expiry minute"). Every decoding
    failure is reported as invalid. *)
Definition verifyDownloadURL (conf : Conf) (now : datetime)
    (encodedPath signature : str) : result Verdict :=
  ok <- hmacVerify conf (VObj (OStr encodedPath)) signature ;;
  if negb ok then Ok invalid
  else
    match decode_payload encodedPath with
    | Some (fp, stamp) =>
        if str_eqb stamp (lit "0")
        then Ok {| valid := true; filePath := Some fp |}
        else
          match parse_stamp stamp with
          | Some expiry =>
              if minute_index now <=? minute_index expiry
              then Ok {| valid := true; filePath := Some fp |}
              else Ok invalid
          | None => Ok invalid
          end
    | None => Ok invalid
    end.

(** ** Vocabulary of the statements *)

(** Code points [str.encode("UTF-8")] accepts: the Unicode scalar values. *)
Definition encodable (c : Z) : Prop :=
  0 <= c < 0xD800 \/ 0xE000 <= c < 0x110000.

Definition is_lower_hex (c : Z) : Prop :=
  48 <= c <= 57 \/ 97 <= c <= 102.

(** What [hmacSign] feeds to the MAC. *)
Definition to_bytes (data : pyval) : result bytes :=
  match data with
  | VBytes b => Ok b
  | VObj o => encode_utf8 (py_str o)
  end.

(** Dates and times the [datetime] type admits. *)
Definition valid_date (y m d : Z) : Prop :=
  1 <= y <= 9999 /\ 1 <= m <= 12 /\ 1 <= d <= days_in_month y m.

Definition valid_datetime (dt : datetime) : Prop :=
  valid_date (year dt) (month dt) (day dt)
  /\ 0 <= hour dt < 24 /\ 0 <= minute dt < 60 /\ 0 <= second dt < 60
  /\ 0 <= microsecond dt < 1000000.

Definition valid_timedelta (td : timedelta) : Prop :=
  -999999999 <= td_days td <= 999999999
  /\ 0 <= td_seconds td < 86400 /\ 0 <= td_microseconds td < 1000000.

(** Microseconds from the start of ordinal day 0. *)
Definition datetime_us (dt : datetime) : Z :=
  (toordinal dt * 86400 + hour dt * 3600 + minute dt * 60 + second dt)
  * 1000000 + microsecond dt.

Definition timedelta_us (td : timedelta) : Z :=
  (td_days td * 86400 + td_seconds td) * 1000000 + td_microseconds td.

(** One day of the 400-year cycle: [ord2ymd] yields a date of the calendar,
    [ymd2ord] inverts it, and the day lies before the next new year. *)
Definition cycle_ok (r : Z) : bool :=
  let '(y, m, d) := ord2ymd (r + 1) in
  (1 <=? y) && (y <=? 400) && (1 <=? m) && (m <=? 12) && (1 <=? d)
  && (d <=? days_in_month y m) && (ymd2ord y m d =? r + 1)
  && (r + 1 <=? days_before_year (y + 1)).

(** [f] holds of [start], [start + 1], ..., [start + n - 1]. *)
Fixpoint forall_range (f : Z -> bool) (n : nat) (start : Z) : bool :=
  match n with
  | O => true
  | S n' => f start && forall_range f n' (start + 1)
  end.

(** The time with seconds and microseconds dropped. *)
Definition to_minute (dt : datetime) : datetime :=
  {| year := year dt; month := month dt; day := day dt; hour := hour dt;
     minute := minute dt; second := 0; microsecond := 0 |}.

(** Two readings of the clock in the same calendar minute. *)
Definition same_minute (a b : datetime) : Prop := to_minute a = to_minute b.

(** The sum [now + td] lies in the range of [datetime]. *)
Definition expiry_in_range (now : datetime) (td : timedelta) : Prop :=
  0 < (datetime_us now + timedelta_us td) / 86400000000 <= MAXORDINAL.

(** The expression [(datetime.now() + expires).strftime("%Y%m%d%H%M")
    if expires else 0] of [downloadUrlFor], as ["%s"] prints it. *)
Definition expiry_stamp (now : datetime) (expires : option timedelta)
    : result str :=
  if truthy expires then
    match expires with
    | Some td => dt <- datetime_add now td ;; Ok (strftime_YmdHM dt)
    | None => Raise TypeError
    end
  else Ok (lit "0").

(** The path [downloadUrlFor] signs. *)
Definition file_path (folder fileName : str) (derived : bool) : str :=
  if derived then folder ++ lit "/derived/" ++ fileName
  else folder ++ lit "/source/" ++ fileName.

Definition no_nul (s : str) : Prop := Forall (fun c => c <> 0) s.

(** The time that lies [T] microseconds after the start of ordinal day 0. *)
Definition datetime_of_us (T : Z) : datetime :=
  let '(y, m, d) := ord2ymd (T / 86400000000) in
  {| year := y; month := m; day := d;
     hour := T / 3600000000 mod 24; minute := T / 60000000 mod 60;
     second := T / 1000000 mod 60; microsecond := T mod 1000000 |}.

(** ** Sample inputs *)

Definition testkey_conf : Conf :=
  {| viur_file_hmacKey := Some (lit "testkey") |}.

Definition no_key_conf : Conf := {| viur_file_hmacKey := None |}.

Definition empty_key_conf : Conf := {| viur_file_hmacKey := Some [] |}.

(** 2024-01-01, [h]:[m]:[s] on the clock. *)
Definition jan_1_2024 (h m s : Z) : datetime :=
  {| year := 2024; month := 1; day := 1;
     hour := h; minute := m; second := s; microsecond := 0 |}.

Definition zero_timedelta : timedelta := timedelta_new 0 0 0.

(** * The other helpers of [utils.py] *)

(** ** [escapeString] *)

(** [str.isspace] of one character: the characters [str.strip()] removes. *)
Definition is_space (c : Z) : bool :=
  ((0x09 <=? c) && (c <=? 0x0D)) || ((0x1C <=? c) && (c <=? 0x20))
  || (c =? 0x85) || (c =? 0xA0) || (c =? 0x1680)
  || ((0x2000 <=? c) && (c <=? 0x200A))
  || (c =? 0x2028) || (c =? 0x2029) || (c =? 0x202F) || (c =? 0x205F)
  || (c =? 0x3000).

Fixpoint lstrip (s : str) : str :=
  match s with
  | [] => []
  | c :: r => if is_space c then lstrip r else s
  end.

Definition rstrip (s : str) : str := rev (lstrip (rev s)).

(** [s.strip()]. *)
Definition strip (s : str) : str := rstrip (lstrip s).

(** [s.replace(old, new)] for a one-character [old]. *)
Definition replace_char (old : Z) (new : str) (s : str) : str :=
  flat_map (fun c => if c =? old then new else [c]) s.

(** The slice [s[0:n]]: a negative [n] counts from the end. *)
Definition slice_to (s : str) (n : Z) : str :=
  if n <? 0 then firstn (Z.to_nat (Z.of_nat (length s) + n)) s
  else firstn (Z.to_nat n) s.

Definition escapeString (val : pyobj) (maxLength : Z) : str :=
  let val :=
    replace_char 0 []
      (replace_char 10 []
         (replace_char 39 (lit "&#39;")
            (replace_char 34 (lit "&quot;")
               (replace_char 62 (lit "&gt;")
                  (replace_char 60 (lit "&lt;") (strip (py_str val))))))) in
  if negb (maxLength =? 0) then slice_to val maxLength else val.

(** The default of the signature: [maxLength = 254]. *)
Definition escapeString_default (val : pyobj) : str := escapeString val 254.

(** ** [generateRandomString] *)

(** [string.ascii_letters + string.digits]. *)
Definition ascii_letters_digits : str :=
  lit "abcdefghijklmnopqrstuvwxyzABCDEFGHIJKLMNOPQRSTUVWXYZ0123456789".

(** [random.choices(population, k=k)]: draw [i] picks the element at index
    [floor(random() * len(population))], which the source of randomness
    [rnd] supplies; a negative [k] draws nothing. The generator moves on by
    the draws taken. *)
Definition random_choices (rnd : nat -> Z) (population : str) (k : Z)
    : str * (nat -> Z) :=
  (map (fun i => nth (Z.to_nat (rnd i)) population 0) (seq 0 (Z.to_nat k)),
   fun i => rnd (Z.to_nat k + i)%nat).

Definition generateRandomString (rnd : nat -> Z) (length : Z)
    : str * (nat -> Z) :=
  random_choices rnd ascii_letters_digits length.

(** ** [normalizeKey] *)

(** A datastore key: the application it lives in, its kind, its id or
    name, and, for a child, the key of its parent entity. *)
Inductive Key : Type :=
| KeyRoot (application kind : str) (id_or_name : pyobj)
| KeyChild (application kind : str) (id_or_name : pyobj) (parent : Key).

Definition key_application (k : Key) : str :=
  match k with KeyRoot a _ _ | KeyChild a _ _ _ => a end.
Definition key_kind (k : Key) : str :=
  match k with KeyRoot _ kd _ | KeyChild _ kd _ _ => kd end.
Definition key_id_or_name (k : Key) : pyobj :=
  match k with KeyRoot _ _ i | KeyChild _ _ i _ => i end.
Definition key_parent (k : Key) : option Key :=
  match k with KeyRoot _ _ _ => None | KeyChild _ _ _ p => Some p end.

(** [db.Key(kind, id_or_name, parent=parent)]: a key of the running
    application [app]. *)
Definition db_Key (app kind : str) (id_or_name : pyobj)
    (parent : option Key) : Key :=
  match parent with
  | None => KeyRoot app kind id_or_name
  | Some p => KeyChild app kind id_or_name p
  end.

(** The body of [normalizeKey] for a key that is not [None]: the parent,
    if there is one, is normalized first. *)
Fixpoint normalizeKey_some (app : str) (key : Key) : Key :=
  match key with
  | KeyRoot _ kind id_or_name => db_Key app kind id_or_name None
  | KeyChild _ kind id_or_name p =>
      db_Key app kind id_or_name (Some (normalizeKey_some app p))
  end.

Definition normalizeKey (app : str) (key : option Key) : option Key :=
  match key with
  | None => None
  | Some k => Some (normalizeKey_some app k)
  end.

(** ** [sendEMail] *)

(** An argument of type [Union[None, A, List[A]]]. *)
Inductive arg (A : Type) : Type :=
| ArgNone
| ArgOne (a : A)
| ArgList (l : list A).
Arguments ArgNone {A}.
Arguments ArgOne {A} a.
Arguments ArgList {A} l.

Definition normalizeToList {A : Type} (value : arg A) : list A :=
  match value with
  | ArgNone => []
  | ArgList l => l
  | ArgOne a => [a]
  end.

(** [conf["viur.emailRecipientOverride"]]: unset, [False] (sending
    disabled), one address or a list of addresses. *)
Inductive override : Type :=
| OvNone
| OvFalse
| OvStr (s : str)
| OvList (l : list str).

Definition override_truthy (ov : override) : bool :=
  match ov with
  | OvStr (_ :: _) => true
  | OvList (_ :: _) => true
  | _ => false
  end.

Definition override_is_False (ov : override) : bool :=
  match ov with
  | OvFalse => true
  | _ => false
  end.

(** [normalizeToList] of a truthy override. *)
Definition override_list (ov : override) : list str :=
  match ov with
  | OvStr s => [s]
  | OvList l => l
  | _ => []
  end.

(** [bool(s)] of a [str] or [None]. *)
Definition str_truthy (s : option str) : bool :=
  match s with
  | Some (_ :: _) => true
  | _ => false
  end.

Definition startswith_at (s : str) : bool :=
  match s with
  | 64 :: _ => true
  | _ => false
  end.

(** [oldDest.replace(".", "_dot_").replace("@", "_at_")]. *)
Definition mangle (oldDest : str) : str :=
  replace_char 64 (lit "_at_") (replace_char 46 (lit "_dot_") oldDest).

(** The loop that builds the overriding destinations. *)
Definition override_dests (newDests oldDests : list str) : list str :=
  flat_map
    (fun newDest =>
       if startswith_at newDest
       then map (fun oldDest => mangle oldDest ++ newDest) oldDests
       else [newDest])
    newDests.

(** The process environment and the project the module found at import. *)
Record Env : Type :=
  { GAE_ENV : option str; GAE_VERSION : option str; projectID : option str }.

(** What an f-string prints for a [str] or [None]. *)
Definition fmt (o : option str) : str :=
  match o with
  | Some s => s
  | None => lit "None"
  end.

Definition opt_str_eqb (o : option str) (s : str) : bool :=
  match o with
  | Some x => str_eqb x s
  | None => false
  end.

Section Mail.

(** Values [sendEMail] only passes on: the skeleton data, an attachment,
    the headers, the template parameters, the extra positional and keyword
    arguments, what the mail handler returns and what the configured
    callables may raise. *)
Context {Skel Attachment Header Params Args Kwargs Ret Exc : Type}.

Inductive mail_exn : Type :=
| ValueError (msg : str)
| InvalidConfigException (msg : str)
| CalleeError (e : Exc).

Inductive outcome (A : Type) : Type :=
| Returns (a : A)
| Raises (e : mail_exn).
Arguments Returns {A} a.
Arguments Raises {A} e.

(** What a call of a configured callable does: it returns a value or
    raises an exception of its own. *)
Inductive callee (A : Type) : Type :=
| Done (a : A)
| Failed (e : Exc).
Arguments Done {A} a.
Arguments Failed {A} e.

(** The arguments of a call of [conf["viur.emailRenderer"]]. *)
Record RenderCall : Type :=
  { r_dests : list str; r_file : option str; r_template : option str;
    r_skel : Skel; r_template_params : Params; r_kwargs : Kwargs }.

(** The arguments of a call of the mail handler. *)
Record HandlerCall : Type :=
  { h_dests : list str; h_sender : str; h_cc : list str; h_bcc : list str;
    h_replyTo : option str; h_subject : str; h_header : Header;
    h_body : str; h_attachments : list Attachment; h_args : Args;
    h_kwargs : Kwargs }.

(** [conf.get("viur.emailHandler")]. *)
Inductive handler_slot : Type :=
| HandlerNone
| HandlerNotCallable
| HandlerCallable (handler : HandlerCall -> callee Ret).

Record MailConf : Type :=
  { viur_emailRecipientOverride : override;
    viur_emailSenderOverride : option str;
    viur_emailHandler : handler_slot;
    viur_emailRenderer : RenderCall -> callee (str * str) }.

(** [sendEMail] returns [False] or what the handler returned. *)
Inductive mail_result : Type :=
| RetFalse
| RetHandler (r : Ret).

(** The [logging] calls leave no trace in the result and are left out. *)
Definition sendEMail (conf : MailConf) (env : Env) (dests : arg str)
    (file template : option str) (skel : Skel)
    (attachments : arg Attachment) (sender : option str)
    (cc bcc : arg str) (replyTo : option str) (header : Header)
    (template_params : Params) (args : Args) (kwargs : Kwargs)
    : outcome mail_result :=
  if negb (xorb (str_truthy file) (str_truthy template)) then
    Raises (ValueError
              (lit "You have to set the params 'file' xor a 'template'."))
  else
    let dests := normalizeToList dests in
    let cc := normalizeToList cc in
    let bcc := normalizeToList bcc in
    let attachments := normalizeToList attachments in
    let routed :=
      if override_truthy (viur_emailRecipientOverride conf) then
        Some (override_dests
                (override_list (viur_emailRecipientOverride conf)) dests)
      else if override_is_False (viur_emailRecipientOverride conf) then None
      else Some dests in
    match routed with
    | None => Returns RetFalse
    | Some dests =>
        let sender :=
          if str_truthy (viur_emailSenderOverride conf) then
            fmt (viur_emailSenderOverride conf)
          else
            match sender with
            | Some s => s
            | None =>
                if opt_str_eqb (GAE_ENV env) (lit "localdev") then
                  lit "viur@localdev." ++ fmt (projectID env)
                  ++ lit ".appspotmail.com"
                else
                  lit "viur@" ++ fmt (GAE_VERSION env) ++ lit "."
                  ++ fmt (projectID env) ++ lit ".appspotmail.com"
            end in
        match viur_emailHandler conf with
        | HandlerNone =>
            Raises (InvalidConfigException (lit "No emailHandler specified!"))
        | HandlerNotCallable =>
            Raises (InvalidConfigException
                      (lit "Invalid emailHandler configured, no email will be sent!"))
        | HandlerCallable handler =>
            match viur_emailRenderer conf
                    {| r_dests := dests; r_file := file;
                       r_template := template; r_skel := skel;
                       r_template_params := template_params;
                       r_kwargs := kwargs |} with
            | Failed e => Raises (CalleeError e)
            | Done (subject, body) =>
                match handler
                        {| h_dests := dests; h_sender := sender;
                           h_cc := cc; h_bcc := bcc; h_replyTo := replyTo;
                           h_subject := subject; h_header := header;
                           h_body := body; h_attachments := attachments;
                           h_args := args; h_kwargs := kwargs |} with
                | Done r => Returns (RetHandler r)
                | Failed e => Raises (CalleeError e)
                end
            end
        end
    end.

End Mail.

Arguments Returns {Exc A} a.
Arguments Raises {Exc A} e.
Arguments Done {Exc A} a.
Arguments Failed {Exc A} e.

Arguments mail_exn : clear implicits.
Arguments outcome : clear implicits.
Arguments callee : clear implicits.
Arguments RenderCall : clear implicits.
Arguments HandlerCall : clear implicits.
Arguments handler_slot : clear implicits.
Arguments MailConf : clear implicits.
Arguments mail_result : clear implicits.

(** ** [markFileForDeletion] *)

(** A datastore entity: its kind and its properties, in the order they
    were set. As a [dict], it is truthy iff it has a property. *)
Record Entity : Type :=
  { entity_kind : str; entity_props : list (str * pyobj) }.

Definition entity_truthy (e : Entity) : bool :=
  match entity_props e with
  | [] => false
  | _ :: _ => true
  end.

Section DeletedFiles.

(** The datastore: [getEntry db kind prop value] is
    [db.Query(kind).filter(prop, value).getEntry()], and [Put db e] is the
    datastore after [db.Put(e)]. *)
Context {Store : Type}.
Variable getEntry : Store -> str -> str -> pyobj -> option Entity.
Variable Put : Store -> Entity -> Store.

(** The marker [markFileForDeletion] writes. *)
Definition deletion_marker (dlkey : pyobj) : Entity :=
  {| entity_kind := lit "viur-deleted-files";
     entity_props := [(lit "itercount", OInt 0);
                      (lit "dlkey", OStr (py_str dlkey))] |}.

Definition markFileForDeletion (db : Store) (dlkey : pyobj) : Store :=
  match getEntry db (lit "viur-deleted-files") (lit "dlkey") dlkey with
  | Some fileObj =>
      if entity_truthy fileObj then db else Put db (deletion_marker dlkey)
  | None => Put db (deletion_marker dlkey)
  end.

End DeletedFiles.

(** A datastore that is a list of entities, searched from the oldest. *)
Definition pyobj_eqb (a b : pyobj) : bool :=
  match a, b with
  | OStr x, OStr y => str_eqb x y
  | OInt x, OInt y => x =? y
  | OBool x, OBool y => Bool.eqb x y
  | ONone, ONone => true
  | _, _ => false
  end.

Fixpoint lookup_prop (prop : str) (props : list (str * pyobj))
    : option pyobj :=
  match props with
  | [] => None
  | (k, v) :: r => if str_eqb k prop then Some v else lookup_prop prop r
  end.

Definition list_getEntry (db : list Entity) (kind prop : str)
    (value : pyobj) : option Entity :=
  find (fun e =>
          str_eqb (entity_kind e) kind
          && match lookup_prop prop (entity_props e) with
             | Some v => pyobj_eqb v value
             | None => false
             end) db.

Definition list_Put (db : list Entity) (e : Entity) : list Entity :=
  db ++ [e].

(** ** [seoUrlToEntry], [seoUrlToFunction] *)

(** A [dict] with [str] keys, as far as it is looked into. *)
Definition dict (V : Type) : Type := str -> option V.

(** [sep.join(parts)]. *)
Definition str_join (sep : str) (parts : list str) : str :=
  match parts with
  | [] => []
  | p :: r => p ++ flat_map (fun q => sep ++ q) r
  end.

Fixpoint all_str (parts : list (option str)) : option (list str) :=
  match parts with
  | [] => Some []
  | Some p :: r => option_map (cons p) (all_str r)
  | None :: _ => None
  end.

(** ["/".join(pathComponents)]: a component that is [None] (the language,
    when none is set) makes [join] raise a [TypeError]. *)
Definition join_path (pathComponents : list (option str)) : result str :=
  match all_str pathComponents with
  | Some parts => Ok (str_join (lit "/") parts)
  | None => Raise TypeError
  end.

(** The part of [conf] the two functions read. *)
Record SeoConf : Type :=
  { viur_languageMethod : str;
    viur_languageModuleMap : dict (dict str) }.

(** The name of the module in the language [lang], if the map has one. *)
Definition translate_module (conf : SeoConf) (lang : option str)
    (module : str) : str :=
  match viur_languageModuleMap conf module, lang with
  | Some names, Some l =>
      match names l with
      | Some name => name
      | None => module
      end
  | _, _ => module
  end.

(** An entry, as far as [seoUrlToEntry] looks at it: its truth value;
    [entry["viurCurrentSeoKeys"]] ([None] when the lookup raises; a value
    of [None] or an empty [dict] is the [dict] that has no keys);
    [entry["key"]] when ["key" in entry]; and [entry.name] when the object
    has such an attribute. Values are given by what [str()] makes of
    them. *)
Record EntryObj : Type :=
  { entry_bool : bool;
    entry_viurCurrentSeoKeys : option (dict pyobj);
    entry_key : option pyobj;
    entry_name : option pyobj }.

(** [lang] is the value of [currentLanguage.get()]; the arguments
    [skelType] and [language] are not used by the function. *)
Definition seoUrlToEntry (conf : SeoConf) (lang : option str)
    (module : str) (entry : option EntryObj) : result str :=
  let pathComponents := [Some []] in
  let pathComponents :=
    if str_eqb (viur_languageMethod conf) (lit "url")
    then pathComponents ++ [lang] else pathComponents in
  let module := translate_module conf lang module in
  let pathComponents := pathComponents ++ [Some module] in
  match entry with
  | None => join_path pathComponents
  | Some entry =>
      if negb (entry_bool entry) then join_path pathComponents
      else
        match entry_viurCurrentSeoKeys entry with
        | None => join_path pathComponents
        | Some currentSeoKeys =>
            match
              match lang with
              | Some l => currentSeoKeys l
              | None => None
              end
            with
            | Some seoKey =>
                join_path (pathComponents ++ [Some (py_str seoKey)])
            | None =>
                match entry_key entry with
                | Some key => join_path (pathComponents ++ [Some (py_str key)])
                | None =>
                    match entry_name entry with
                    | Some name =>
                        join_path (pathComponents ++ [Some (py_str name)])
                    | None => join_path pathComponents
                    end
                end
            end
        end
  end.

(** [conf["viur.mainResolver"]] and what hangs below it: a [dict] or a
    function, which may carry a [seoLanguageMap]. *)
#[warnings="-register-all"]
Inductive resolver : Type :=
| RDict (entries : dict resolver)
| RFunc (seoLanguageMap : option (dict str)).

(** [name in targetObject]: a function is not a container. *)
Definition resolver_get (targetObject : resolver) (name : str)
    : result (option resolver) :=
  match targetObject with
  | RDict entries => Ok (entries name)
  | RFunc _ => Raise TypeError
  end.

(** The last component for [function]: its name in the language [lang]
    when the function found carries one. *)
Definition function_name (func : resolver) (lang : option str)
    (function : str) : str :=
  match func, lang with
  | RFunc (Some names), Some l =>
      match names l with
      | Some name => name
      | None => function
      end
  | _, _ => function
  end.

Definition seoUrlToFunction (conf : SeoConf) (mainResolver : resolver)
    (lang : option str) (module function : str) (render : option str)
    : result str :=
  let module := translate_module conf lang module in
  let pathComponents :=
    if str_eqb (viur_languageMethod conf) (lit "url")
    then [Some []; lang] else [Some []] in
  let targetObject := mainResolver in
  found <- resolver_get targetObject module ;;
  let '(pathComponents, targetObject) :=
    match found with
    | Some sub => (pathComponents ++ [Some module], sub)
    | None => (pathComponents, targetObject)
    end in
  step <- match render with
          | Some (c :: r) =>
              found <- resolver_get targetObject (c :: r) ;;
              match found with
              | Some sub => Ok (pathComponents ++ [Some (c :: r)], sub)
              | None => Ok (pathComponents, targetObject)
              end
          | _ => Ok (pathComponents, targetObject)
          end ;;
  let '(pathComponents, targetObject) := step in
  found <- resolver_get targetObject function ;;
  let pathComponents :=
    match found with
    | Some func =>
        pathComponents ++ [Some (function_name func lang function)]
    | None => pathComponents
    end in
  join_path pathComponents.

(** ** Vocabulary of the statements on the helpers *)

(** The characters [escapeString] replaces or removes: [<], [>], the
    double quote, the apostrophe, the newline and NUL. *)
Definition is_markup (c : Z) : Prop :=
  c = 60 \/ c = 62 \/ c = 34 \/ c = 39 \/ c = 10 \/ c = 0.

(** ASCII letters and digits. *)
Definition is_alnum (c : Z) : Prop :=
  48 <= c <= 57 \/ 65 <= c <= 90 \/ 97 <= c <= 122.

(** The characters of an issued download URL: letters, digits and
    [/ ? = - _]. *)
Definition is_url_char (c : Z) : Prop :=
  is_alnum c \/ c = 47 \/ c = 63 \/ c = 61 \/ c = 45 \/ c = 95.

(** The kinds and ids of a key and its ancestors, the key itself first. *)
Fixpoint key_path (k : Key) : list (str * pyobj) :=
  match k with
  | KeyRoot _ kind i => [(kind, i)]
  | KeyChild _ kind i p => (kind, i) :: key_path p
  end.

(** The applications of a key and its ancestors. *)
Fixpoint key_applications (k : Key) : list str :=
  match k with
  | KeyRoot a _ _ => [a]
  | KeyChild a _ _ p => a :: key_applications p
  end.

(** The destinations [sendEMail] goes on with; [None] when sending is
    disabled. *)
Definition final_dests (ov : override) (dests : list str)
    : option (list str) :=
  if override_truthy ov then Some (override_dests (override_list ov) dests)
  else if override_is_False ov then None
  else Some dests.

(** The sender [sendEMail] hands to the mail handler. *)
Definition final_sender (senderOverride : option str) (env : Env)
    (sender : option str) : str :=
  if str_truthy senderOverride then fmt senderOverride
  else
    match sender with
    | Some s => s
    | None =>
        if opt_str_eqb (GAE_ENV env) (lit "localdev") then
          lit "viur@localdev." ++ fmt (projectID env)
          ++ lit ".appspotmail.com"
        else
          lit "viur@" ++ fmt (GAE_VERSION env) ++ lit "."
          ++ fmt (projectID env) ++ lit ".appspotmail.com"
    end.

(** What [sendEMail] makes of the handler's answer. *)
Definition handed {Ret Exc : Type} (r : callee Exc Ret)
    : outcome Exc (mail_result Ret) :=
  match r with
  | Done x => Returns (RetHandler x)
  | Failed e => Raises (CalleeError e)
  end.

(** ** Sample mail configuration *)

(** A handler that answers with the destinations it was given, and a
    renderer with a fixed subject and body. *)
Definition echo_handler (call : HandlerCall unit unit unit unit)
    : callee unit (list str) :=
  Done (h_dests call).

Definition fixed_renderer (call : RenderCall unit unit unit)
    : callee unit (str * str) :=
  Done (lit "subject", lit "body").

Definition sample_mail_conf (ov : override) (senderOverride : option str)
    (handler : handler_slot unit unit unit unit (list str) unit)
    : MailConf unit unit unit unit unit unit (list str) unit :=
  {| viur_emailRecipientOverride := ov;
     viur_emailSenderOverride := senderOverride;
     viur_emailHandler := handler;
     viur_emailRenderer := fixed_renderer |}.

Definition sample_env : Env :=
  {| GAE_ENV := Some (lit "localdev"); GAE_VERSION := None;
     projectID := Some (lit "demo") |}.

(** ** Sample routing configuration *)

Definition no_entries {V : Type} : dict V := fun _ => None.

(** A configuration with the given language method and no translated
    module names. *)
Definition sample_seo_conf (method : str) : SeoConf :=
  {| viur_languageMethod := method; viur_languageModuleMap := no_entries |}.

(** An entry that has a key and no SEO keys. *)
Definition sample_entry : EntryObj :=
  {| entry_bool := true; entry_viurCurrentSeoKeys := Some no_entries;
     entry_key := Some (OInt 42); entry_name := None |}.

(** A resolver with the one module ["shop"], which has the one function
    ["view"]. *)
Definition sample_resolver : resolver :=
  RDict (fun module =>
           if str_eqb module (lit "shop")
           then Some (RDict (fun function =>
                               if str_eqb function (lit "view")
                               then Some (RFunc None) else None))
           else None).

(** * Properties *)

(** ** The error monad *)

Lemma bind_Ok {A B} (r : result A) (k : A -> result B) (a : A) :
  r = Ok a -> bind r k = k a.
Proof. intros ->; reflexivity. Qed.

Lemma bind_inv_Ok {A B} (r : result A) (k : A -> result B) (b : B) :
  bind r k = Ok b -> exists a, r = Ok a /\ k a = Ok b.
Proof. destruct r as [a|e]; simpl; [eauto | discriminate]. Qed.

Lemma Ok_inj {A} (a b : A) : Ok a = Ok b -> a = b.
Proof. intros H; exact (f_equal (fun r => match r with Ok x => x | Raise _ => a end) H). Qed.

(** ** Strings *)

Lemma str_eqb_eq (a b : list Z) : str_eqb a b = true <-> a = b.
Proof.
  revert b; induction a as [|x a IH]; intros [|y b]; simpl;
    try (split; [discriminate | discriminate]); try tauto.
  rewrite andb_true_iff, Z.eqb_eq, IH.
  split; [intros [-> ->]; reflexivity | intros [= -> ->]; auto].
Qed.

Lemma str_eqb_refl (a : list Z) : str_eqb a a = true.
Proof. apply str_eqb_eq; reflexivity. Qed.

Lemma is_ascii_app (a b : list Z) :
  is_ascii (a ++ b) = is_ascii a && is_ascii b.
Proof. apply forallb_app. Qed.

Lemma is_ascii_Forall (s : list Z) :
  is_ascii s = true <-> Forall (fun c => 0 <= c < 128) s.
Proof.
  unfold is_ascii; rewrite forallb_forall, Forall_forall.
  split; intros H c Hc; specialize (H c Hc); lia.
Qed.

(** ** Digests *)

Lemma hexchar_lower_hex (d : Z) : 0 <= d < 16 -> is_lower_hex (hexchar d).
Proof.
  intros H; unfold hexchar, is_lower_hex.
  destruct (Z.ltb_spec d 10); lia.
Qed.

Lemma hexlify_lower_hex (bs : bytes) :
  Forall is_byte bs -> Forall is_lower_hex (hexlify bs).
Proof.
  induction 1 as [|b bs Hb _ IH]; simpl; [constructor|].
  unfold is_byte in Hb.
  constructor; [|constructor; [|exact IH]]; apply hexchar_lower_hex.
  - split; [apply Z.div_pos; lia | apply Z.div_lt_upper_bound; lia].
  - apply Z.mod_pos_bound; lia.
Qed.

Lemma hexlify_length (bs : bytes) :
  length (hexlify bs) = (2 * length bs)%nat.
Proof. induction bs as [|b bs IH]; simpl; [reflexivity | rewrite IH; lia]. Qed.

Lemma lower_hex_is_ascii (s : str) : Forall is_lower_hex s -> is_ascii s = true.
Proof.
  intros H; apply is_ascii_Forall.
  eapply Forall_impl; [|exact H]. unfold is_lower_hex; intros; lia.
Qed.

Lemma sha3_384_length (m : bytes) : length (Keccak.sha3_384 m) = 48%nat.
Proof.
  unfold Keccak.sha3_384, Keccak.squeeze.
  now rewrite !length_map, length_seq.
Qed.

Lemma sha3_384_bytes (m : bytes) : Forall is_byte (Keccak.sha3_384 m).
Proof.
  unfold Keccak.sha3_384, Keccak.squeeze.
  apply Forall_forall; intros x Hx.
  apply in_map_iff in Hx as [i [<- _]].
  apply Z.mod_pos_bound; lia.
Qed.

#[global] Opaque Keccak.sha3_384.

Lemma hmac_sha3_384_length (k m : bytes) :
  length (hmac_sha3_384 k m) = 48%nat.
Proof. apply sha3_384_length. Qed.

Lemma hmac_sha3_384_bytes (k m : bytes) : Forall is_byte (hmac_sha3_384 k m).
Proof. apply sha3_384_bytes. Qed.

#[global] Opaque hmac_sha3_384.

Lemma hmacSign_Some (conf : Conf) (k : bytes) (data : pyval) :
  viur_file_hmacKey conf = Some k ->
  hmacSign conf data =
    (b <- to_bytes data ;; Ok (hexlify (hmac_sha3_384 k b))).
Proof. unfold hmacSign; intros ->; destruct data; reflexivity. Qed.

Lemma hmacSign_None (conf : Conf) (data : pyval) :
  viur_file_hmacKey conf = None ->
  hmacSign conf data = Raise (AssertionError (lit "No hmac-key set!")).
Proof. unfold hmacSign; intros ->; reflexivity. Qed.

Lemma hmacSign_lower_hex (conf : Conf) (data : pyval) (s : str) :
  hmacSign conf data = Ok s -> length s = 96%nat /\ Forall is_lower_hex s.
Proof.
  unfold hmacSign.
  destruct (viur_file_hmacKey conf) as [k|]; [|discriminate].
  intros H; apply bind_inv_Ok in H as [b [_ H]].
  apply Ok_inj in H; subst s.
  rewrite hexlify_length, hmac_sha3_384_length.
  split; [reflexivity | apply hexlify_lower_hex, hmac_sha3_384_bytes].
Qed.

Lemma hmacSign_ascii (conf : Conf) (data : pyval) (s : str) :
  hmacSign conf data = Ok s -> is_ascii s = true.
Proof. intros H; apply lower_hex_is_ascii, (hmacSign_lower_hex _ _ _ H). Qed.

(** ** UTF-8 *)

Ltac zbool :=
  repeat (match goal with
    | |- context [?a <? ?b] =>
        destruct (Z.ltb_spec a b); try (exfalso; Z.div_mod_to_equations; lia)
    | |- context [?a <=? ?b] =>
        destruct (Z.leb_spec a b); try (exfalso; Z.div_mod_to_equations; lia)
    | |- context [?a =? ?b] =>
        destruct (Z.eqb_spec a b); try (exfalso; Z.div_mod_to_equations; lia)
    end; cbn [andb orb negb]).

Lemma utf8_encode_cp_Ok (c : Z) :
  encodable c <-> exists b, utf8_encode_cp c = Ok b.
Proof.
  unfold encodable, utf8_encode_cp, is_surrogate. split.
  - intros H; zbool; eauto.
  - intros [b Hb]; revert Hb; zbool; intros Hb; try discriminate; lia.
Qed.

Lemma utf8_encode_cp_bytes (c : Z) (b : bytes) :
  utf8_encode_cp c = Ok b -> Forall is_byte b.
Proof.
  unfold utf8_encode_cp, is_surrogate.
  zbool; intros Hb; try discriminate; apply Ok_inj in Hb; subst b;
    repeat (apply Forall_cons;
            [unfold is_byte; Z.div_mod_to_equations; lia|]);
    apply Forall_nil.
Qed.

Lemma decode_utf8_cp (c : Z) (b rest : bytes) :
  utf8_encode_cp c = Ok b ->
  decode_utf8 (b ++ rest) = option_map (cons c) (decode_utf8 rest).
Proof.
  unfold utf8_encode_cp, is_surrogate.
  zbool; intros Hb; try discriminate; apply Ok_inj in Hb; subst b;
    cbn [app decode_utf8]; unfold is_cont, is_surrogate;
    zbool; f_equal; f_equal; Z.div_mod_to_equations; lia.
Qed.

Lemma encode_utf8_Ok (s : str) :
  Forall encodable s <-> exists b, encode_utf8 s = Ok b.
Proof.
  induction s as [|c s IH]; simpl.
  - split; [eauto | constructor].
  - split.
    + intros H; inversion H as [|? ? Hc Hs]; subst.
      apply utf8_encode_cp_Ok in Hc as [b ->].
      apply IH in Hs as [bs ->]. simpl; eauto.
    + intros [b H].
      apply bind_inv_Ok in H as [b1 [H1 H]].
      apply bind_inv_Ok in H as [b2 [H2 _]].
      constructor; [apply utf8_encode_cp_Ok | apply IH]; eauto.
Qed.

Lemma encode_utf8_app (a b : str) :
  encode_utf8 (a ++ b) =
    (x <- encode_utf8 a ;; y <- encode_utf8 b ;; Ok (x ++ y)).
Proof.
  induction a as [|c a IH]; simpl.
  - destruct (encode_utf8 b); reflexivity.
  - destruct (utf8_encode_cp c) as [bc|]; simpl; [|reflexivity].
    rewrite IH. destruct (encode_utf8 a) as [x|]; simpl; [|reflexivity].
    destruct (encode_utf8 b) as [y|]; simpl; [|reflexivity].
    now rewrite app_assoc.
Qed.

Lemma encode_utf8_ascii (s : str) : is_ascii s = true -> encode_utf8 s = Ok s.
Proof.
  induction s as [|c s IH]; simpl; [reflexivity|].
  rewrite andb_true_iff; intros [Hc Hs].
  rewrite (IH Hs). unfold utf8_encode_cp.
  destruct (Z.ltb_spec c 0); [lia|].
  destruct (Z.ltb_spec c 128); [reflexivity | lia].
Qed.

Lemma encode_utf8_bytes (s : str) (b : bytes) :
  encode_utf8 s = Ok b -> Forall is_byte b.
Proof.
  revert b; induction s as [|c s IH]; simpl; intros b H.
  - apply Ok_inj in H; subst; constructor.
  - apply bind_inv_Ok in H as [b1 [H1 H]].
    apply bind_inv_Ok in H as [b2 [H2 H]].
    apply Ok_inj in H; subst b.
    apply Forall_app; split; [eapply utf8_encode_cp_bytes | apply IH]; eauto.
Qed.

Lemma decode_encode_utf8 (s : str) (b : bytes) :
  encode_utf8 s = Ok b -> decode_utf8 b = Some s.
Proof.
  revert b; induction s as [|c s IH]; simpl; intros b H.
  - apply Ok_inj in H; subst; reflexivity.
  - apply bind_inv_Ok in H as [b1 [H1 H]].
    apply bind_inv_Ok in H as [b2 [H2 H]].
    apply Ok_inj in H; subst b.
    rewrite (decode_utf8_cp _ _ _ H1), (IH _ H2). reflexivity.
Qed.

(** ** base64url *)

Lemma list_ind3 {A} (P : list A -> Prop) :
  P [] -> (forall a, P [a]) -> (forall a b, P [a; b]) ->
  (forall a b c r, P r -> P (a :: b :: c :: r)) ->
  forall l, P l.
Proof.
  intros H0 H1 H2 H3 l.
  enough (P l /\ (forall a, P (a :: l)) /\ (forall a b, P (a :: b :: l)))
    by tauto.
  induction l as [|x l (IH0 & IH1 & IH2)]; auto.
Qed.

Lemma b64char_range (i : Z) : 0 <= i < 64 -> 0 <= b64char i < 128.
Proof. unfold b64char; intros H; zbool; lia. Qed.

Lemma b64char_not_pad (i : Z) : 0 <= i < 64 -> (b64char i =? 61) = false.
Proof. unfold b64char; intros H; apply Z.eqb_neq; zbool; lia. Qed.

Lemma b64val_b64char (i : Z) : 0 <= i < 64 -> b64val (b64char i) = Some i.
Proof.
  unfold b64char, b64val; intros H.
  destruct (Z.ltb_spec i 26); [zbool; f_equal; lia|].
  destruct (Z.ltb_spec i 52); [zbool; f_equal; lia|].
  destruct (Z.ltb_spec i 62); [zbool; f_equal; lia|].
  destruct (Z.eqb_spec i 62); [subst; reflexivity|].
  assert (i = 63) as -> by lia; reflexivity.
Qed.

Ltac b64idx := unfold is_byte in *; Z.div_mod_to_equations; lia.

Lemma urlsafe_b64encode_ascii (bs : bytes) :
  Forall is_byte bs -> is_ascii (urlsafe_b64encode bs) = true.
Proof.
  intros H; apply is_ascii_Forall; revert H.
  induction bs as [|a|a b|a b c r IH] using list_ind3; intros H;
    repeat match goal with
      | H : Forall _ (_ :: _) |- _ => inversion H; clear H; subst
      end; cbn [urlsafe_b64encode];
    repeat (apply Forall_cons; [first [apply b64char_range; b64idx | lia]|]);
    auto.
Qed.

Lemma urlsafe_b64decode_encode (bs : bytes) :
  Forall is_byte bs -> urlsafe_b64decode (urlsafe_b64encode bs) = Some bs.
Proof.
  induction bs as [|a|a b|a b c r IH] using list_ind3; intros H;
    repeat match goal with
      | H : Forall _ (_ :: _) |- _ => inversion H; clear H; subst
      end; cbn [urlsafe_b64encode urlsafe_b64decode].
  - reflexivity.
  - rewrite !b64val_b64char by b64idx. cbn [Z.eqb andb Pos.eqb].
    do 2 f_equal; b64idx.
  - rewrite !b64val_b64char by b64idx.
    rewrite (b64char_not_pad (b mod 16 * 4)) by b64idx.
    cbn [Z.eqb andb Pos.eqb].
    f_equal; f_equal; [|f_equal]; b64idx.
  - rewrite !b64val_b64char by b64idx.
    rewrite (b64char_not_pad (b mod 16 * 4 + c / 64)) by b64idx.
    rewrite (b64char_not_pad (c mod 64)) by b64idx.
    cbn [andb]. rewrite IH by assumption. cbn [option_map].
    f_equal; f_equal; [|f_equal; [|f_equal]]; b64idx.
Qed.

(** ** The calendar *)

Lemma forall_range_spec (f : Z -> bool) (n : nat) (start r : Z) :
  forall_range f n start = true ->
  start <= r < start + Z.of_nat n -> f r = true.
Proof.
  revert start; induction n as [|n IH]; intros start; simpl forall_range.
  - lia.
  - rewrite andb_true_iff; intros [H0 Hn] Hr.
    destruct (Z.eq_dec r start) as [->|Hne]; [exact H0|].
    apply (IH (start + 1)); [exact Hn | lia].
Qed.

Lemma cycle_check : forall_range cycle_ok (Z.to_nat 146097) 0 = true.
Proof. vm_compute. reflexivity. Qed.

Lemma cycle_ok_all (r : Z) : 0 <= r < 146097 -> cycle_ok r = true.
Proof.
  intros H. apply (forall_range_spec _ _ _ _ cycle_check). lia.
Qed.

Lemma is_leap_shift (q y : Z) : is_leap (400 * q + y) = is_leap y.
Proof.
  unfold is_leap.
  replace ((400 * q + y) mod 4) with (y mod 4)
    by (Z.div_mod_to_equations; lia).
  replace ((400 * q + y) mod 100) with (y mod 100)
    by (Z.div_mod_to_equations; lia).
  replace ((400 * q + y) mod 400) with (y mod 400)
    by (Z.div_mod_to_equations; lia).
  reflexivity.
Qed.

Lemma days_before_year_shift (q y : Z) :
  days_before_year (400 * q + y) = 146097 * q + days_before_year y.
Proof. unfold days_before_year. Z.div_mod_to_equations. lia. Qed.

Lemma days_in_month_shift (q y m : Z) :
  days_in_month (400 * q + y) m = days_in_month y m.
Proof. unfold days_in_month. now rewrite is_leap_shift. Qed.

Lemma ymd2ord_shift (q y m d : Z) :
  ymd2ord (400 * q + y) m d = 146097 * q + ymd2ord y m d.
Proof.
  unfold ymd2ord, days_before_month.
  rewrite is_leap_shift, days_before_year_shift. lia.
Qed.

Lemma ord2ymd_shift (n : Z) :
  ord2ymd n =
    let '(y, m, d) := ord2ymd ((n - 1) mod 146097 + 1) in
    (400 * ((n - 1) / 146097) + y, m, d).
Proof.
  unfold ord2ymd, DI400Y.
  set (r := (n - 1) mod 146097).
  assert (Hr : 0 <= r < 146097) by (apply Z.mod_pos_bound; lia).
  replace (r + 1 - 1) with r by lia.
  rewrite (Z.div_small r 146097), (Z.mod_small r 146097) by lia.
  cbv zeta.
  repeat match goal with
    | |- context [if ?b then _ else _] => destruct b
    end; f_equal; f_equal; lia.
Qed.

Lemma days_before_month_nonneg (y m : Z) :
  1 <= m <= 12 -> 0 <= days_before_month y m.
Proof.
  intros H.
  assert (m = 1 \/ m = 2 \/ m = 3 \/ m = 4 \/ m = 5 \/ m = 6 \/ m = 7
          \/ m = 8 \/ m = 9 \/ m = 10 \/ m = 11 \/ m = 12) as Hm by lia.
  unfold days_before_month.
  repeat (destruct Hm as [->|Hm]); try subst m;
    destruct (is_leap y); cbv; discriminate.
Qed.

Lemma days_before_year_mono (y y' : Z) :
  y <= y' -> days_before_year y <= days_before_year y'.
Proof. unfold days_before_year. intros H. Z.div_mod_to_equations. lia. Qed.

Lemma ord2ymd_spec (n y m d : Z) :
  1 <= n <= MAXORDINAL -> ord2ymd n = (y, m, d) ->
  valid_date y m d /\ ymd2ord y m d = n /\ n <= days_before_year (y + 1).
Proof.
  unfold MAXORDINAL; intros Hn.
  rewrite ord2ymd_shift.
  set (q := (n - 1) / 146097). set (r := (n - 1) mod 146097).
  assert (Hr : 0 <= r < 146097) by (apply Z.mod_pos_bound; lia).
  assert (Hq : 0 <= q) by (apply Z.div_pos; lia).
  assert (Hqr : n - 1 = 146097 * q + r) by (apply Z.div_mod; lia).
  pose proof (cycle_ok_all r Hr) as C. unfold cycle_ok in C.
  clearbody q r.
  destruct (ord2ymd (r + 1)) as [[y' m'] d'].
  rewrite !andb_true_iff, !Z.leb_le, Z.eqb_eq in C.
  destruct C as [[[[[[[C1 C2] C3] C4] C5] C6] C7] C8].
  intros E.
  apply pair_equal_spec in E as [E <-]; apply pair_equal_spec in E as [<- <-].
  assert (Hord : ymd2ord (400 * q + y') m' d' = n)
    by (rewrite ymd2ord_shift; lia).
  split; [|split; [exact Hord|]].
  2:{ replace (400 * q + y' + 1) with (400 * q + (y' + 1)) by lia.
      rewrite days_before_year_shift. lia. }
  unfold valid_date. rewrite days_in_month_shift.
  repeat split; try lia.
  destruct (Z.le_gt_cases (400 * q + y') 9999) as [|Hbig]; [assumption|].
  exfalso.
  pose proof (days_before_year_mono 10000 (400 * q + y') ltac:(lia)) as Hm.
  pose proof (days_before_month_nonneg (400 * q + y') m' ltac:(lia)) as Hb.
  change (days_before_year 10000) with 3652059 in Hm.
  unfold ymd2ord in Hord. lia.
Qed.

(** ** Decimal fields of the stamp *)

Lemma decimal_4 (y : Z) :
  1000 <= y <= 9999 ->
  decimal y = [48 + y / 1000; 48 + y / 100 mod 10; 48 + y / 10 mod 10;
               48 + y mod 10].
Proof.
  intros H. unfold decimal.
  destruct (Z.ltb_spec y 0); [lia|].
  assert (9 <= Z.log2 y)
    by (change 9 with (Z.log2 1000); apply Z.log2_le_mono; lia).
  destruct (Z.to_nat (Z.log2 y)) as [|[|[|k]]] eqn:E; try lia.
  cbn [decimal_aux].
  destruct (Z.ltb_spec y 10); [lia|].
  destruct (Z.ltb_spec (y / 10) 10); [exfalso; Z.div_mod_to_equations; lia|].
  destruct (Z.ltb_spec (y / 10 / 10) 10);
    [exfalso; Z.div_mod_to_equations; lia|].
  destruct (Z.ltb_spec (y / 10 / 10 / 10) 10);
    [|exfalso; Z.div_mod_to_equations; lia].
  replace (y / 10 / 10 / 10 mod 10) with (y / 1000)
    by (Z.div_mod_to_equations; lia).
  replace (y / 10 / 10 mod 10) with (y / 100 mod 10)
    by (Z.div_mod_to_equations; lia).
  reflexivity.
Qed.

Lemma number_4 (y : Z) :
  1000 <= y <= 9999 ->
  number 0 [48 + y / 1000; 48 + y / 100 mod 10; 48 + y / 10 mod 10;
            48 + y mod 10] = Some y.
Proof.
  intros H. unfold number, digit. zbool. f_equal.
  Z.div_mod_to_equations. lia.
Qed.

Lemma number_2 (n : Z) :
  0 <= n <= 99 -> number 0 [48 + n / 10; 48 + n mod 10] = Some n.
Proof.
  intros H. unfold number, digit. zbool. f_equal.
  Z.div_mod_to_equations. lia.
Qed.

Lemma strftime_12 (dt : datetime) :
  1000 <= year dt <= 9999 -> length (strftime_YmdHM dt) = 12%nat.
Proof. intros H. unfold strftime_YmdHM. now rewrite decimal_4. Qed.

Lemma days_in_month_le (y m : Z) : days_in_month y m <= 31.
Proof.
  unfold days_in_month, tbl, DAYS_IN_MONTH.
  destruct ((m =? 2) && is_leap y); [lia|].
  destruct (Z.to_nat m) as [|[|[|[|[|[|[|[|[|[|[|[|[|[|k]]]]]]]]]]]]]];
    cbn; try lia.
Qed.

Lemma parse_strftime (dt : datetime) :
  valid_datetime dt -> 1000 <= year dt ->
  parse_stamp (strftime_YmdHM dt) = Some (to_minute dt).
Proof.
  intros [(Hy & Hm & Hd) (Hh & Hn & _ & _)] Hy'.
  pose proof (days_in_month_le (year dt) (month dt)).
  unfold strftime_YmdHM, pad2. rewrite decimal_4 by lia.
  cbn [app parse_stamp].
  rewrite number_4, !number_2 by lia.
  destruct (Z.leb_spec 1 (year dt)); [|lia].
  destruct (Z.leb_spec 1 (month dt)); [|lia].
  destruct (Z.leb_spec (month dt) 12); [|lia].
  destruct (Z.leb_spec 1 (day dt)); [|lia].
  destruct (Z.leb_spec (day dt) (days_in_month (year dt) (month dt))); [|lia].
  destruct (Z.leb_spec (hour dt) 23); [|lia].
  destruct (Z.leb_spec (minute dt) 59); [|lia].
  reflexivity.
Qed.

(** ** Splitting the payload *)

Lemma str_split_none (sep : Z) (s : str) :
  Forall (fun c => c <> sep) s -> str_split sep s = [s].
Proof.
  induction 1 as [|c s Hc _ IH]; simpl; [reflexivity|].
  destruct (Z.eqb_spec c sep); [contradiction|]. now rewrite IH.
Qed.

Lemma str_split_one (sep : Z) (a b : str) :
  Forall (fun c => c <> sep) a -> Forall (fun c => c <> sep) b ->
  str_split sep (a ++ sep :: b) = [a; b].
Proof.
  intros Ha Hb. induction Ha as [|c a Hc _ IH]; simpl.
  - rewrite Z.eqb_refl. now rewrite str_split_none.
  - destruct (Z.eqb_spec c sep); [contradiction|]. now rewrite IH.
Qed.

(** ** [datetime + timedelta] *)

Lemma timedelta_new_fields (d s u : Z) :
  let T := (d * 86400 + s) * 1000000 + u in
  td_days (timedelta_new d s u) = T / 86400000000
  /\ td_seconds (timedelta_new d s u) = T / 1000000 mod 86400
  /\ td_microseconds (timedelta_new d s u) = T mod 1000000.
Proof.
  unfold timedelta_new; cbn [td_days td_seconds td_microseconds].
  repeat split; Z.div_mod_to_equations; lia.
Qed.

Lemma datetime_add_eq (now : datetime) (td : timedelta) :
  datetime_add now td =
    let T := datetime_us now + timedelta_us td in
    if (0 <? T / 86400000000) && (T / 86400000000 <=? MAXORDINAL)
    then Ok (datetime_of_us T) else Raise OverflowError.
Proof.
  unfold datetime_add, datetime_of_us, datetime_us, timedelta_us.
  destruct (timedelta_new_fields (toordinal now)
              (hour now * 3600 + minute now * 60 + second now)
              (microsecond now)) as (D0 & S0 & U0).
  set (delta0 := timedelta_new _ _ _) in *.
  destruct (timedelta_new_fields (td_days delta0 + td_days td)
              (td_seconds delta0 + td_seconds td)
              (td_microseconds delta0 + td_microseconds td))
    as (D1 & S1 & U1).
  set (delta := timedelta_new _ _ _) in *.
  cbv zeta in *.
  set (T0 := (toordinal now * 86400
              + (hour now * 3600 + minute now * 60 + second now)) * 1000000
             + microsecond now) in *.
  set (T := (toordinal now * 86400 + hour now * 3600 + minute now * 60
             + second now) * 1000000 + microsecond now
            + ((td_days td * 86400 + td_seconds td) * 1000000
               + td_microseconds td)).
  assert (ET : (td_days delta0 + td_days td) * 86400 * 1000000
               + (td_seconds delta0 + td_seconds td) * 1000000
               + (td_microseconds delta0 + td_microseconds td) = T).
  { rewrite D0, S0, U0. subst T T0. Z.div_mod_to_equations. lia. }
  replace (((td_days delta0 + td_days td) * 86400
            + (td_seconds delta0 + td_seconds td)) * 1000000
           + (td_microseconds delta0 + td_microseconds td))
    with T in D1, S1, U1 by lia.
  rewrite D1.
  destruct ((0 <? T / 86400000000) && (T / 86400000000 <=? MAXORDINAL));
    [|reflexivity].
  destruct (ord2ymd (T / 86400000000)) as [[y m] d].
  rewrite S1, U1. f_equal. f_equal; Z.div_mod_to_equations; lia.
Qed.

Lemma datetime_of_us_valid (T : Z) :
  0 < T / 86400000000 <= MAXORDINAL ->
  valid_datetime (datetime_of_us T) /\ datetime_us (datetime_of_us T) = T.
Proof.
  intros H. unfold datetime_of_us.
  destruct (ord2ymd (T / 86400000000)) as [[y m] d] eqn:E.
  apply ord2ymd_spec in E as (V & O & _); [|lia].
  unfold valid_datetime, datetime_us, toordinal;
    cbn [year month day hour minute second microsecond].
  rewrite O.
  repeat split; try apply V; try (apply Z.mod_pos_bound; lia).
  Z.div_mod_to_equations. lia.
Qed.

Lemma minute_index_us (dt : datetime) :
  valid_datetime dt -> minute_index dt = datetime_us dt / 60000000.
Proof.
  intros (_ & _ & _ & Hs & Hu). unfold minute_index, datetime_us.
  Z.div_mod_to_equations. lia.
Qed.

(** ** The expiry stamp *)

Lemma decimal_aux_plain (fuel : nat) (n : Z) (acc : str) :
  Forall (fun c => 0 < c < 128) acc ->
  Forall (fun c => 0 < c < 128) (decimal_aux fuel n acc).
Proof.
  revert n acc; induction fuel as [|fuel IH]; intros n acc H; simpl; auto.
  assert (Forall (fun c => 0 < c < 128) ((48 + n mod 10) :: acc)).
  { constructor; [|exact H]. Z.div_mod_to_equations. lia. }
  destruct (n <? 10); auto.
Qed.

Lemma decimal_plain (n : Z) : Forall (fun c => 0 < c < 128) (decimal n).
Proof.
  unfold decimal. destruct (n <? 0).
  - constructor; [lia|]. apply decimal_aux_plain. constructor.
  - apply decimal_aux_plain. constructor.
Qed.

Lemma strftime_plain (dt : datetime) :
  valid_datetime dt -> Forall (fun c => 0 < c < 128) (strftime_YmdHM dt).
Proof.
  intros [(Hy & Hm & Hd) (Hh & Hn & _ & _)].
  pose proof (days_in_month_le (year dt) (month dt)).
  unfold strftime_YmdHM, pad2.
  repeat (apply Forall_app; split); try apply decimal_plain;
    repeat (apply Forall_cons; [Z.div_mod_to_equations; lia|]);
    apply Forall_nil.
Qed.

Lemma plain_is_ascii (s : str) :
  Forall (fun c => 0 < c < 128) s -> is_ascii s = true.
Proof.
  intros H. apply is_ascii_Forall.
  eapply Forall_impl; [|exact H]. intros; simpl in *; lia.
Qed.

Lemma plain_no_nul (s : str) : Forall (fun c => 0 < c < 128) s -> no_nul s.
Proof.
  intros H. eapply Forall_impl; [|exact H]. intros; simpl in *; lia.
Qed.

Lemma expiry_stamp_falsy (now : datetime) (expires : option timedelta) :
  truthy expires = false -> expiry_stamp now expires = Ok (lit "0").
Proof. unfold expiry_stamp. intros ->. reflexivity. Qed.

Lemma expiry_stamp_truthy (now : datetime) (td : timedelta) :
  timedelta_bool td = true ->
  expiry_stamp now (Some td) =
    let T := datetime_us now + timedelta_us td in
    if (0 <? T / 86400000000) && (T / 86400000000 <=? MAXORDINAL)
    then Ok (strftime_YmdHM (datetime_of_us T)) else Raise OverflowError.
Proof.
  unfold expiry_stamp, truthy. intros ->. rewrite datetime_add_eq.
  cbv zeta.
  destruct ((0 <? _) && _); reflexivity.
Qed.

Lemma in_range_test (now : datetime) (td : timedelta) :
  expiry_in_range now td ->
  (0 <? (datetime_us now + timedelta_us td) / 86400000000)
  && ((datetime_us now + timedelta_us td) / 86400000000 <=? MAXORDINAL)
  = true.
Proof.
  unfold expiry_in_range. intros [H1 H2].
  apply andb_true_iff; split; [apply Z.ltb_lt | apply Z.leb_le]; assumption.
Qed.

Lemma expiry_stamp_plain (now : datetime) (expires : option timedelta)
    (stamp : str) :
  expiry_stamp now expires = Ok stamp -> Forall (fun c => 0 < c < 128) stamp.
Proof.
  destruct (truthy expires) eqn:Et.
  - destruct expires as [td|]; [|discriminate]. simpl in Et.
    rewrite (expiry_stamp_truthy _ _ Et). cbv zeta.
    destruct ((0 <? _) && _) eqn:Er; [|discriminate].
    intros H; apply Ok_inj in H; subst stamp.
    apply strftime_plain, datetime_of_us_valid.
    apply andb_true_iff in Er as [H1 H2].
    apply Z.ltb_lt in H1. apply Z.leb_le in H2. lia.
  - rewrite (expiry_stamp_falsy _ _ Et).
    intros H; apply Ok_inj in H; subst stamp.
    repeat constructor.
Qed.

(** ** [downloadUrlFor] in normal form *)

Lemma py_str_zero : py_str (OInt 0) = lit "0".
Proof. reflexivity. Qed.

Lemma downloadUrlFor_eq (conf : Conf) (now : datetime)
    (folder fileName : str) (derived : bool) (expires : option timedelta) :
  downloadUrlFor conf now folder fileName derived expires =
    (stamp <- expiry_stamp now expires ;;
     payload <- encode_utf8
                  (file_path folder fileName derived ++ [0] ++ stamp) ;;
     resstr <- hmacSign conf (VBytes (urlsafe_b64encode payload)) ;;
     Ok (lit "/file/download/" ++ urlsafe_b64encode payload
         ++ lit "?sig=" ++ resstr)).
Proof.
  unfold downloadUrlFor, expiry_stamp.
  fold (file_path folder fileName derived).
  set (fp := file_path folder fileName derived).
  assert (tail : forall stamp : str,
    (sigStr <- encode_utf8 (fp ++ [0] ++ stamp) ;;
     resstr <- hmacSign conf (VBytes (urlsafe_b64encode sigStr)) ;;
     path <- decode_ascii (urlsafe_b64encode sigStr) ;;
     Ok (lit "/file/download/" ++ path ++ lit "?sig=" ++ resstr)) =
    (payload <- encode_utf8 (fp ++ [0] ++ stamp) ;;
     resstr <- hmacSign conf (VBytes (urlsafe_b64encode payload)) ;;
     Ok (lit "/file/download/" ++ urlsafe_b64encode payload
         ++ lit "?sig=" ++ resstr))).
  { intros stamp.
    destruct (encode_utf8 (fp ++ [0] ++ stamp)) as [p|e] eqn:E;
      [|reflexivity].
    cbn [bind].
    destruct (hmacSign conf (VBytes (urlsafe_b64encode p))) as [r|e];
      [|reflexivity].
    cbn [bind]. unfold decode_ascii.
    rewrite urlsafe_b64encode_ascii by (eapply encode_utf8_bytes; eauto).
    reflexivity. }
  destruct (truthy expires).
  - destruct expires as [td|]; [|reflexivity].
    destruct (datetime_add now td) as [dt|e]; [|reflexivity].
    cbn [bind py_str]. apply tail.
  - cbn [bind]. rewrite py_str_zero. apply tail.
Qed.

(** The call returns as soon as the key is configured, the names can be
    encoded and the expiry stamp can be formed. *)
Lemma downloadUrlFor_ok (conf : Conf) (k : bytes) (now : datetime)
    (folder fileName : str) (derived : bool) (expires : option timedelta)
    (stamp : str) :
  viur_file_hmacKey conf = Some k ->
  Forall encodable folder -> Forall encodable fileName ->
  expiry_stamp now expires = Ok stamp ->
  exists payload,
    encode_utf8 (file_path folder fileName derived ++ [0] ++ stamp)
      = Ok payload
    /\ Forall is_byte payload
    /\ downloadUrlFor conf now folder fileName derived expires =
         Ok (lit "/file/download/" ++ urlsafe_b64encode payload
             ++ lit "?sig="
             ++ hexlify (hmac_sha3_384 k (urlsafe_b64encode payload))).
Proof.
  intros Hk Hf Hn Hs.
  pose proof (expiry_stamp_plain _ _ _ Hs) as Hp.
  assert (He : Forall encodable
                 (file_path folder fileName derived ++ [0] ++ stamp)).
  { unfold file_path.
    assert (Forall encodable (lit "/derived/"))
      by (repeat constructor; unfold encodable; cbn; lia).
    assert (Forall encodable (lit "/source/"))
      by (repeat constructor; unfold encodable; cbn; lia).
    assert (Forall encodable stamp)
      by (eapply Forall_impl; [|exact Hp]; unfold encodable;
          intros; simpl in *; lia).
    destruct derived; repeat (apply Forall_app; split); auto;
      repeat constructor; unfold encodable; lia. }
  apply encode_utf8_Ok in He as [payload Hpay].
  exists payload. split; [exact Hpay|].
  split; [eapply encode_utf8_bytes; eauto|].
  rewrite downloadUrlFor_eq, Hs. cbn [bind]. rewrite Hpay. cbn [bind].
  rewrite (hmacSign_Some _ _ _ Hk). reflexivity.
Qed.

(** ** Decoding an issued token *)

Lemma file_path_no_nul (folder fileName : str) (derived : bool) :
  no_nul folder -> no_nul fileName ->
  no_nul (file_path folder fileName derived).
Proof.
  intros Hf Hn. unfold file_path, no_nul.
  destruct derived; repeat (apply Forall_app; split); auto;
    repeat constructor; cbn; lia.
Qed.

Lemma decode_payload_encoded (fp stamp : str) (payload : bytes) :
  encode_utf8 (fp ++ [0] ++ stamp) = Ok payload ->
  no_nul fp -> no_nul stamp ->
  decode_payload (urlsafe_b64encode payload) = Some (fp, stamp).
Proof.
  intros He Hf Hs. unfold decode_payload.
  rewrite urlsafe_b64decode_encode by (eapply encode_utf8_bytes; eauto).
  rewrite (decode_encode_utf8 _ _ He).
  change (fp ++ [0] ++ stamp) with (fp ++ 0 :: stamp).
  now rewrite str_split_one.
Qed.

Lemma hmacSign_encodedPath (conf : Conf) (payload : bytes) :
  Forall is_byte payload ->
  hmacSign conf (VObj (OStr (urlsafe_b64encode payload))) =
  hmacSign conf (VBytes (urlsafe_b64encode payload)).
Proof.
  intros Hp. unfold hmacSign.
  destruct (viur_file_hmacKey conf); [|reflexivity].
  cbn [py_str].
  now rewrite encode_utf8_ascii by (apply urlsafe_b64encode_ascii, Hp).
Qed.

Lemma compare_digest_ascii (a b : str) :
  is_ascii a = true -> is_ascii b = true ->
  compare_digest a b = Ok (str_eqb a b).
Proof. unfold compare_digest. intros -> ->. reflexivity. Qed.

Lemma hmacVerify_own_signature (conf : Conf) (data : pyval) (s : str) :
  hmacSign conf data = Ok s -> hmacVerify conf data s = Ok true.
Proof.
  intros H. unfold hmacVerify. rewrite H. cbn [bind].
  pose proof (hmacSign_ascii _ _ _ H) as Ha.
  rewrite compare_digest_ascii, str_eqb_refl by assumption. reflexivity.
Qed.

Lemma toordinal_us (dt : datetime) :
  valid_datetime dt -> toordinal dt = datetime_us dt / 86400000000.
Proof.
  intros (_ & Hh & Hm & Hs & Hu). unfold datetime_us.
  Z.div_mod_to_equations. lia.
Qed.

(** A time that is not earlier than one of the year 1000 or later lies in
    such a year itself. *)
Lemma year_after (now : datetime) (T : Z) :
  valid_datetime now -> 1000 <= year now ->
  datetime_us now <= T -> T / 86400000000 <= MAXORDINAL ->
  1000 <= year (datetime_of_us T).
Proof.
  intros Hv Hy HT Hmax.
  pose proof (toordinal_us now Hv) as Ho.
  assert (Hle : toordinal now <= T / 86400000000)
    by (rewrite Ho; apply Z.div_le_mono; lia).
  destruct Hv as [(Hy' & Hm & Hd) _].
  pose proof (days_before_month_nonneg (year now) (month now) Hm) as Hb.
  pose proof (days_before_year_mono 1000 (year now) Hy) as Hmono.
  change (days_before_year 1000) with 364877 in Hmono.
  unfold toordinal, ymd2ord in Hle.
  unfold datetime_of_us.
  destruct (ord2ymd (T / 86400000000)) as [[y m] d] eqn:E.
  apply ord2ymd_spec in E as (_ & _ & Hn); [|lia].
  cbn [year].
  destruct (Z.le_gt_cases 1000 y) as [|Hlt]; [assumption|exfalso].
  pose proof (days_before_year_mono (y + 1) 1000 ltac:(lia)) as Hm2.
  change (days_before_year 1000) with 364877 in Hm2. lia.
Qed.

(** * The claims *)

(** ** Signing and verifying *)

(** Known answers of [hmac.new(key, msg, hashlib.sha3_384).hexdigest()]. *)
Example hmac_sha3_384_abc :
  hexlify (hmac_sha3_384 (lit "testkey") (lit "abc")) =
  lit "c84e4a58ff4fd406e61540d230168ae4c2e7f4d8da7fca92bae710c028eccb3036ba5d5a7648592a6ab73b4d54cd885a".
Proof. vm_compute. reflexivity. Qed.

Example sha3_384_empty :
  hexlify (Keccak.sha3_384 []) =
  lit "0c63a75b845e4f7d01107d852e4c2485c51a50aaaa94fc61995e71bbee983a2ac3713831264adb47fb6bd1e058d5f004".
Proof. vm_compute. reflexivity. Qed.

Lemma hmac_sha3_384_unfold (k msg : bytes) :
  hmac_sha3_384 k msg = hmac_digest Keccak.sha3_384 104 k msg.
Proof. reflexivity. Qed.

(** C3. With a key configured, [hmacSign] returns the lowercase hexadecimal
    HMAC, with SHA3-384 as the hash, of its input under that key: of the
    input itself when it is a [bytes] object, and of the UTF-8 encoding of
    [str(input)] otherwise. The result has 96 characters, all of them in
    [0-9a-f]. *)
Theorem hmacSign_hmac_sha3_384 (conf : Conf) (k : bytes) (data : pyval) :
  viur_file_hmacKey conf = Some k ->
  hmacSign conf data =
    (msg <- match data with
            | VBytes b => Ok b
            | VObj o => encode_utf8 (py_str o)
            end ;;
     Ok (hexlify (hmac_digest Keccak.sha3_384 104 k msg)))
  /\ (forall s, hmacSign conf data = Ok s ->
        length s = 96%nat /\ Forall is_lower_hex s).
Proof.
  intros Hk. split.
  - rewrite (hmacSign_Some _ _ _ Hk). destruct data; reflexivity.
  - intros s. apply hmacSign_lower_hex.
Qed.

Lemma hmacSign_hmac_sha3_384_witness :
  viur_file_hmacKey testkey_conf = Some (lit "testkey")
  /\ hmacSign testkey_conf (VObj (OStr (lit "abc"))) =
       (msg <- encode_utf8 (lit "abc") ;;
        Ok (hexlify (hmac_digest Keccak.sha3_384 104 (lit "testkey") msg)))
  /\ (forall s, hmacSign testkey_conf (VObj (OStr (lit "abc"))) = Ok s ->
         length s = 96%nat /\ Forall is_lower_hex s).
Proof.
  split; [reflexivity|].
  exact (hmacSign_hmac_sha3_384 testkey_conf (lit "testkey")
           (VObj (OStr (lit "abc"))) eq_refl).
Defined.

(** C2, as stated, fails: a signature with a character outside ASCII makes
    [hmac.compare_digest] raise a [TypeError] although the key is set. *)
Lemma non_ascii_signature_raises :
  hmacVerify testkey_conf (VBytes (lit "abc")) [233] = Raise TypeError.
Proof. vm_compute. reflexivity. Qed.

(** C2, amended. For a signature of ASCII characters, [hmacVerify] fails
    exactly as [hmacSign] does on the same data, and otherwise returns the
    boolean that is true iff the signature equals [hmacSign(data)]. *)
Theorem hmacVerify_ascii_signature (conf : Conf) (data : pyval)
    (signature : str) :
  is_ascii signature = true ->
  match hmacSign conf data with
  | Ok s =>
      exists b, hmacVerify conf data signature = Ok b
                /\ (b = true <-> signature = s)
  | Raise e => hmacVerify conf data signature = Raise e
  end.
Proof.
  intros Ha. unfold hmacVerify.
  destruct (hmacSign conf data) as [s|e] eqn:E; [|reflexivity].
  cbn [bind].
  rewrite compare_digest_ascii by (eauto using hmacSign_ascii).
  exists (str_eqb s signature). split; [reflexivity|].
  rewrite str_eqb_eq. split; congruence.
Qed.

Lemma hmacVerify_non_ascii (conf : Conf) (data : pyval)
    (signature s : str) :
  hmacSign conf data = Ok s -> is_ascii signature = false ->
  hmacVerify conf data signature = Raise TypeError.
Proof.
  intros H Hs. unfold hmacVerify, compare_digest.
  rewrite H. cbn [bind]. rewrite Hs, andb_false_r. reflexivity.
Qed.

Lemma hmacVerify_ascii_signature_witness :
  is_ascii (lit "abc") = true
  /\ match hmacSign testkey_conf (VBytes (lit "abc")) with
     | Ok s =>
         exists b, hmacVerify testkey_conf (VBytes (lit "abc")) (lit "abc")
                   = Ok b
                   /\ (b = true <-> lit "abc" = s)
     | Raise e =>
         hmacVerify testkey_conf (VBytes (lit "abc")) (lit "abc") = Raise e
     end.
Proof.
  split; [reflexivity|].
  exact (hmacVerify_ascii_signature testkey_conf (VBytes (lit "abc"))
           (lit "abc") eq_refl).
Defined.

(** C4, as stated, fails: an empty key is a key, and signing with it
    returns (the value is the one [hmac.new(b"", b"", sha3_384)] gives). *)
Lemma empty_key_signs :
  hmacSign empty_key_conf (VBytes []) =
  Ok (lit "adca89f07bbfbeaf58880c1572379ea2416568fd3b66542bd42599c57c4567e6ae086299ea216c6f3e7aef90b6191d24").
Proof. vm_compute. reflexivity. Qed.

Lemma downloadUrlFor_no_key (conf : Conf) (now : datetime)
    (folder fileName : str) (derived : bool) (expires : option timedelta)
    (stamp : str) :
  viur_file_hmacKey conf = None ->
  Forall encodable folder -> Forall encodable fileName ->
  expiry_stamp now expires = Ok stamp ->
  downloadUrlFor conf now folder fileName derived expires =
  Raise (AssertionError (lit "No hmac-key set!")).
Proof.
  intros Hk Hf Hn Hs.
  destruct (downloadUrlFor_ok {| viur_file_hmacKey := Some [] |} [] now
              folder fileName derived expires stamp eq_refl Hf Hn Hs)
    as (payload & Hp & _ & _).
  rewrite downloadUrlFor_eq, Hs. cbn [bind]. rewrite Hp. cbn [bind].
  now rewrite hmacSign_None.
Qed.

(** C4, amended. On data that can be turned into bytes, [hmacSign] raises
    exactly when no key is configured ([None]); the failure is the
    assertion ["No hmac-key set!"], and [hmacVerify] and [downloadUrlFor]
    fail with it as well. With any configured key, the empty one included,
    [hmacSign] returns. *)
Theorem hmacSign_raises_iff_no_key (conf : Conf) (data : pyval)
    (msg : bytes) :
  to_bytes data = Ok msg ->
  (raises (hmacSign conf data) <-> viur_file_hmacKey conf = None)
  /\ (forall k, viur_file_hmacKey conf = Some k ->
        hmacSign conf data = Ok (hexlify (hmac_sha3_384 k msg)))
  /\ (viur_file_hmacKey conf = None ->
        hmacSign conf data = Raise (AssertionError (lit "No hmac-key set!"))
        /\ (forall signature,
              hmacVerify conf data signature =
              Raise (AssertionError (lit "No hmac-key set!")))
        /\ (forall now folder fileName derived expires stamp,
              Forall encodable folder -> Forall encodable fileName ->
              expiry_stamp now expires = Ok stamp ->
              downloadUrlFor conf now folder fileName derived expires =
              Raise (AssertionError (lit "No hmac-key set!")))).
Proof.
  intros Hm.
  assert (Hsome : forall k, viur_file_hmacKey conf = Some k ->
            hmacSign conf data = Ok (hexlify (hmac_sha3_384 k msg))).
  { intros k Hk. rewrite (hmacSign_Some _ _ _ Hk), Hm. reflexivity. }
  split; [|split; [exact Hsome|]].
  - split.
    + intros [e He]. destruct (viur_file_hmacKey conf) as [k|] eqn:Hk;
        [|reflexivity].
      rewrite (Hsome k eq_refl) in He. discriminate.
    + intros Hk. eexists. apply hmacSign_None, Hk.
  - intros Hk. split; [apply hmacSign_None, Hk|]. split.
    + intros signature. unfold hmacVerify.
      now rewrite (hmacSign_None _ _ Hk).
    + intros. eapply downloadUrlFor_no_key; eauto.
Qed.

Lemma hmacSign_raises_iff_no_key_witness :
  to_bytes (VBytes (lit "abc")) = Ok (lit "abc")
  /\ (raises (hmacSign no_key_conf (VBytes (lit "abc")))
      <-> viur_file_hmacKey no_key_conf = None).
Proof.
  split; [reflexivity|].
  exact (proj1 (hmacSign_raises_iff_no_key no_key_conf (VBytes (lit "abc"))
                  (lit "abc") eq_refl)).
Defined.

(** ** The issued URL *)

(** C6. Whenever the key is configured, the names can be encoded and the
    expiry stamp can be formed, [downloadUrlFor] returns
    ["/file/download/" + encodedPath + "?sig=" + signature], where
    [encodedPath] is the base64url text of the UTF-8 payload
    [filePath + NUL + stamp] (decoding it gives the payload back) and
    [signature] is [hmacSign] of [encodedPath] itself. *)
Theorem downloadUrlFor_url (conf : Conf) (k : bytes) (now : datetime)
    (folder fileName : str) (derived : bool) (expires : option timedelta)
    (stamp : str) :
  viur_file_hmacKey conf = Some k ->
  Forall encodable folder -> Forall encodable fileName ->
  expiry_stamp now expires = Ok stamp ->
  exists (payload encodedPath : bytes) (signature : str),
    encode_utf8 (file_path folder fileName derived ++ [0] ++ stamp)
      = Ok payload
    /\ encodedPath = urlsafe_b64encode payload
    /\ urlsafe_b64decode encodedPath = Some payload
    /\ hmacSign conf (VBytes encodedPath) = Ok signature
    /\ downloadUrlFor conf now folder fileName derived expires =
         Ok (lit "/file/download/" ++ encodedPath ++ lit "?sig="
             ++ signature).
Proof.
  intros Hk Hf Hn Hs.
  destruct (downloadUrlFor_ok _ _ _ _ _ derived _ _ Hk Hf Hn Hs)
    as (payload & Hp & Hb & Hu).
  exists payload, (urlsafe_b64encode payload),
    (hexlify (hmac_sha3_384 k (urlsafe_b64encode payload))).
  repeat split; auto.
  - apply urlsafe_b64decode_encode, Hb.
  - now rewrite (hmacSign_Some _ _ _ Hk).
Qed.

Lemma downloadUrlFor_url_witness :
  exists (payload encodedPath : bytes) (signature : str),
    encode_utf8 (file_path (lit "abc") (lit "img.png") false ++ [0]
                 ++ lit "0") = Ok payload
    /\ encodedPath = urlsafe_b64encode payload
    /\ urlsafe_b64decode encodedPath = Some payload
    /\ hmacSign testkey_conf (VBytes encodedPath) = Ok signature
    /\ downloadUrlFor testkey_conf (jan_1_2024 0 0 0) (lit "abc")
         (lit "img.png") false None =
         Ok (lit "/file/download/" ++ encodedPath ++ lit "?sig="
             ++ signature).
Proof.
  apply (downloadUrlFor_url testkey_conf (lit "testkey")
           (jan_1_2024 0 0 0) (lit "abc") (lit "img.png") false None
           (lit "0")).
  - reflexivity.
  - repeat constructor; unfold encodable; cbn; lia.
  - repeat constructor; unfold encodable; cbn; lia.
  - reflexivity.
Defined.

(** C7. The path inside the payload is [folder + "/derived/" + fileName]
    when [derived] is true and [folder + "/source/" + fileName] when it is
    false: decoding the issued [encodedPath] gives that path, a NUL and the
    stamp. *)
Theorem downloadUrlFor_file_path (conf : Conf) (k : bytes) (now : datetime)
    (folder fileName : str) (derived : bool) (expires : option timedelta)
    (stamp : str) :
  viur_file_hmacKey conf = Some k ->
  Forall encodable folder -> Forall encodable fileName ->
  expiry_stamp now expires = Ok stamp ->
  exists (payload : bytes) (signature : str),
    downloadUrlFor conf now folder fileName derived expires =
      Ok (lit "/file/download/" ++ urlsafe_b64encode payload ++ lit "?sig="
          ++ signature)
    /\ urlsafe_b64decode (urlsafe_b64encode payload) = Some payload
    /\ decode_utf8 payload =
         Some ((if derived then folder ++ lit "/derived/" ++ fileName
                else folder ++ lit "/source/" ++ fileName)
               ++ [0] ++ stamp).
Proof.
  intros Hk Hf Hn Hs.
  destruct (downloadUrlFor_ok _ _ _ _ _ derived _ _ Hk Hf Hn Hs)
    as (payload & Hp & Hb & Hu).
  exists payload, (hexlify (hmac_sha3_384 k (urlsafe_b64encode payload))).
  split; [exact Hu|].
  split; [apply urlsafe_b64decode_encode, Hb|].
  apply decode_encode_utf8 in Hp. rewrite Hp.
  unfold file_path. destruct derived; reflexivity.
Qed.

Lemma downloadUrlFor_file_path_witness :
  exists (payload : bytes) (signature : str),
    downloadUrlFor testkey_conf (jan_1_2024 0 0 0) (lit "abc")
      (lit "img.png") true None =
      Ok (lit "/file/download/" ++ urlsafe_b64encode payload ++ lit "?sig="
          ++ signature)
    /\ urlsafe_b64decode (urlsafe_b64encode payload) = Some payload
    /\ decode_utf8 payload =
         Some ((lit "abc" ++ lit "/derived/" ++ lit "img.png")
               ++ [0] ++ lit "0").
Proof.
  apply (downloadUrlFor_file_path testkey_conf (lit "testkey")
           (jan_1_2024 0 0 0) (lit "abc") (lit "img.png") true None
           (lit "0")).
  - reflexivity.
  - repeat constructor; unfold encodable; cbn; lia.
  - repeat constructor; unfold encodable; cbn; lia.
  - reflexivity.
Defined.

(** ** The expiry stamp of an issued URL *)

Lemma timedelta_bool_false (td : timedelta) :
  timedelta_bool td = false <->
  td = {| td_days := 0; td_seconds := 0; td_microseconds := 0 |}.
Proof.
  unfold timedelta_bool. destruct td as [d s u]; cbn.
  rewrite negb_false_iff, !andb_true_iff, !Z.eqb_eq.
  split; [intros [[-> ->] ->]; reflexivity | intros [= -> -> ->]; auto].
Qed.

Lemma expiry_stamp_cases (now : datetime) (expires : option timedelta) :
  (forall td, expires = Some td -> timedelta_bool td = true ->
              expiry_in_range now td) ->
  exists stamp,
    expiry_stamp now expires = Ok stamp
    /\ match expires with
       | None => stamp = lit "0"
       | Some td =>
           if timedelta_bool td then
             exists dt,
               datetime_add now td = Ok dt
               /\ valid_datetime dt
               /\ datetime_us dt = datetime_us now + timedelta_us td
               /\ stamp = strftime_YmdHM dt
           else stamp = lit "0"
       end.
Proof.
  intros Hr. destruct expires as [td|].
  - destruct (timedelta_bool td) eqn:Eb.
    + specialize (Hr td eq_refl Eb).
      exists (strftime_YmdHM
                (datetime_of_us (datetime_us now + timedelta_us td))).
      rewrite (expiry_stamp_truthy _ _ Eb). cbv zeta.
      rewrite (in_range_test _ _ Hr). split; [reflexivity|].
      eexists. rewrite datetime_add_eq. cbv zeta.
      rewrite (in_range_test _ _ Hr).
      destruct (datetime_of_us_valid _ Hr) as [Hv Hu].
      repeat split; auto; apply Hv.
    + exists (lit "0"). split; [|reflexivity].
      apply expiry_stamp_falsy. exact Eb.
  - exists (lit "0"). split; reflexivity.
Qed.

(** C5, as stated, fails: a ttl of zero length is not null, yet the stamp
    in the issued URL is the sentinel ["0"] and not the formatted time
    [now + ttl], which would read ["202401010000"]. *)
Lemma zero_ttl_stamp_is_sentinel :
  let encodedPath := lit "YWJjL3NvdXJjZS9pbWcucG5nADA=" in
  downloadUrlFor testkey_conf (jan_1_2024 0 0 0) (lit "abc") (lit "img.png")
    false (Some zero_timedelta) =
    Ok (lit "/file/download/" ++ encodedPath ++ lit "?sig="
        ++ lit "da9127ceefdb8df7b2ab66faf146e69e4771a6c1ffcad71933ab197576d344a1b86153f9419a2d58bef923fa58186206")
  /\ decode_payload encodedPath = Some (lit "abc/source/img.png", lit "0")
  /\ (dt <- datetime_add (jan_1_2024 0 0 0) zero_timedelta ;;
      Ok (strftime_YmdHM dt)) = Ok (lit "202401010000").
Proof. vm_compute. repeat split; reflexivity. Qed.

(** C5, amended. Whenever the call returns, the stamp in the payload is
    the sentinel ["0"] when the ttl is null or of zero length; otherwise it
    is [strftime("%Y%m%d%H%M")] of the time that lies exactly [ttl] after
    [now], which from the year 1000 on is the twelve-digit text
    [YYYYMMDDHHMM] of that time's minute. *)
Theorem downloadUrlFor_expiry_stamp (conf : Conf) (k : bytes)
    (now : datetime) (folder fileName : str) (derived : bool)
    (expires : option timedelta) :
  viur_file_hmacKey conf = Some k ->
  Forall encodable folder -> Forall encodable fileName ->
  (forall td, expires = Some td -> timedelta_bool td = true ->
              expiry_in_range now td) ->
  exists (stamp : str) (payload : bytes) (signature : str),
    downloadUrlFor conf now folder fileName derived expires =
      Ok (lit "/file/download/" ++ urlsafe_b64encode payload ++ lit "?sig="
          ++ signature)
    /\ urlsafe_b64decode (urlsafe_b64encode payload) = Some payload
    /\ decode_utf8 payload =
         Some (file_path folder fileName derived ++ [0] ++ stamp)
    /\ match expires with
       | None => stamp = lit "0"
       | Some td =>
           if timedelta_bool td then
             exists dt,
               datetime_add now td = Ok dt
               /\ valid_datetime dt
               /\ datetime_us dt = datetime_us now + timedelta_us td
               /\ stamp = strftime_YmdHM dt
               /\ (1000 <= year dt ->
                   length stamp = 12%nat
                   /\ parse_stamp stamp = Some (to_minute dt))
           else stamp = lit "0"
       end.
Proof.
  intros Hk Hf Hn Hr.
  destruct (expiry_stamp_cases now expires Hr) as (stamp & Hs & Hc).
  destruct (downloadUrlFor_ok _ _ _ _ _ derived _ _ Hk Hf Hn Hs)
    as (payload & Hp & Hb & Hu).
  exists stamp, payload,
    (hexlify (hmac_sha3_384 k (urlsafe_b64encode payload))).
  split; [exact Hu|].
  split; [apply urlsafe_b64decode_encode, Hb|].
  split; [apply decode_encode_utf8, Hp|].
  destruct expires as [td|]; [|exact Hc].
  destruct (timedelta_bool td); [|exact Hc].
  destruct Hc as (dt & Ha & Hv & Hus & ->).
  exists dt.
  split; [exact Ha|]. split; [exact Hv|]. split; [exact Hus|].
  split; [reflexivity|]. intros Hy. split.
  - apply strftime_12. destruct Hv as [(Hy' & _) _]. lia.
  - now apply parse_strftime.
Qed.

Lemma downloadUrlFor_expiry_stamp_witness :
  exists (stamp : str) (payload : bytes) (signature : str),
    downloadUrlFor testkey_conf (jan_1_2024 0 0 0) (lit "abc")
      (lit "img.png") false (Some (timedelta_minutes 60)) =
      Ok (lit "/file/download/" ++ urlsafe_b64encode payload ++ lit "?sig="
          ++ signature)
    /\ urlsafe_b64decode (urlsafe_b64encode payload) = Some payload
    /\ decode_utf8 payload =
         Some (file_path (lit "abc") (lit "img.png") false ++ [0] ++ stamp)
    /\ (if timedelta_bool (timedelta_minutes 60) then
          exists dt,
            datetime_add (jan_1_2024 0 0 0) (timedelta_minutes 60) = Ok dt
            /\ valid_datetime dt
            /\ datetime_us dt =
                 datetime_us (jan_1_2024 0 0 0)
                 + timedelta_us (timedelta_minutes 60)
            /\ stamp = strftime_YmdHM dt
            /\ (1000 <= year dt ->
                length stamp = 12%nat
                /\ parse_stamp stamp = Some (to_minute dt))
        else stamp = lit "0").
Proof.
  apply (downloadUrlFor_expiry_stamp testkey_conf (lit "testkey")
           (jan_1_2024 0 0 0) (lit "abc") (lit "img.png") false
           (Some (timedelta_minutes 60))).
  - reflexivity.
  - repeat constructor; unfold encodable; cbn; lia.
  - repeat constructor; unfold encodable; cbn; lia.
  - intros td [= <-] _. unfold expiry_in_range. vm_compute.
    split; [reflexivity | discriminate].
Defined.

(** C10. A ttl of zero length is falsy: the call then does exactly what
    it does for a null ttl, and the URL it returns carries, in its decoded
    payload, the file path, a NUL and the sentinel ["0"], signed with the
    configured key. A call that leaves [derived] and [expires] out uses
    [derived = False] and a ttl of one hour: the stamp in its URL is the
    time exactly 3600 seconds after [now]. *)
Theorem downloadUrlFor_zero_ttl (conf : Conf) (now : datetime)
    (folder fileName : str) (derived : bool) (td : timedelta) :
  valid_timedelta td -> timedelta_us td = 0 ->
  truthy (Some td) = false
  /\ expiry_stamp now (Some td) = Ok (lit "0")
  /\ downloadUrlFor conf now folder fileName derived (Some td) =
     downloadUrlFor conf now folder fileName derived None
  /\ (forall k : bytes,
        viur_file_hmacKey conf = Some k ->
        Forall encodable folder -> Forall encodable fileName ->
        exists payload : bytes,
          downloadUrlFor conf now folder fileName derived (Some td) =
            Ok (lit "/file/download/" ++ urlsafe_b64encode payload
                ++ lit "?sig="
                ++ hexlify (hmac_sha3_384 k (urlsafe_b64encode payload)))
          /\ urlsafe_b64decode (urlsafe_b64encode payload) = Some payload
          /\ decode_utf8 payload =
               Some (file_path folder fileName derived ++ [0] ++ lit "0"))
  /\ downloadUrlFor_defaults conf now folder fileName =
     downloadUrlFor conf now folder fileName false
       (Some {| td_days := 0; td_seconds := 3600; td_microseconds := 0 |})
  /\ (forall k : bytes,
        viur_file_hmacKey conf = Some k ->
        Forall encodable folder -> Forall encodable fileName ->
        expiry_in_range now (timedelta_hours 1) ->
        exists (dt : datetime) (payload : bytes),
          downloadUrlFor_defaults conf now folder fileName =
            Ok (lit "/file/download/" ++ urlsafe_b64encode payload
                ++ lit "?sig="
                ++ hexlify (hmac_sha3_384 k (urlsafe_b64encode payload)))
          /\ urlsafe_b64decode (urlsafe_b64encode payload) = Some payload
          /\ decode_utf8 payload =
               Some (file_path folder fileName false ++ [0]
                     ++ strftime_YmdHM dt)
          /\ datetime_add now (timedelta_hours 1) = Ok dt
          /\ valid_datetime dt
          /\ datetime_us dt = datetime_us now + 3600 * 1000000).
Proof.
  intros (Hd & Hs & Hu) H0. unfold timedelta_us in H0.
  assert (E : td = {| td_days := 0; td_seconds := 0;
                      td_microseconds := 0 |}).
  { destruct td as [d s u]; cbn in *. f_equal; lia. }
  subst td.
  split; [reflexivity|]. split; [reflexivity|].
  split; [reflexivity|]. split.
  { intros k Hk Hf Hn.
    destruct (downloadUrlFor_ok conf k now folder fileName derived
                (Some {| td_days := 0; td_seconds := 0;
                         td_microseconds := 0 |}) (lit "0") Hk Hf Hn
                (expiry_stamp_falsy now
                   (Some {| td_days := 0; td_seconds := 0;
                            td_microseconds := 0 |}) eq_refl))
      as (payload & Hp & Hb & Hr).
    exists payload. split; [exact Hr|].
    split; [apply urlsafe_b64decode_encode, Hb
           | apply decode_encode_utf8, Hp]. }
  split; [reflexivity|].
  intros k Hk Hf Hn Hr.
  destruct (expiry_stamp_cases now (Some (timedelta_hours 1)))
    as (stamp & Hst & Hc).
  { intros td' Htd _. assert (td' = timedelta_hours 1) by congruence.
    subst td'. exact Hr. }
  change (timedelta_bool (timedelta_hours 1)) with true in Hc.
  cbv iota in Hc. destruct Hc as (dt & Ha & Hv & Hus & ->).
  destruct (downloadUrlFor_ok conf k now folder fileName false
              (Some (timedelta_hours 1)) _ Hk Hf Hn Hst)
    as (payload & Hp & Hb & Hres).
  exists dt, payload. split; [exact Hres|].
  split; [apply urlsafe_b64decode_encode, Hb|].
  split; [apply decode_encode_utf8, Hp|].
  split; [exact Ha|]. split; [exact Hv|].
  rewrite Hus. reflexivity.
Qed.

Lemma downloadUrlFor_zero_ttl_witness :
  valid_timedelta zero_timedelta /\ timedelta_us zero_timedelta = 0
  /\ downloadUrlFor testkey_conf (jan_1_2024 0 0 0) (lit "abc")
       (lit "img.png") false (Some zero_timedelta) =
     downloadUrlFor testkey_conf (jan_1_2024 0 0 0) (lit "abc")
       (lit "img.png") false None
  /\ (exists payload : bytes,
        downloadUrlFor testkey_conf (jan_1_2024 0 0 0) (lit "abc")
          (lit "img.png") false (Some zero_timedelta) =
          Ok (lit "/file/download/" ++ urlsafe_b64encode payload
              ++ lit "?sig="
              ++ hexlify (hmac_sha3_384 (lit "testkey")
                            (urlsafe_b64encode payload)))
        /\ urlsafe_b64decode (urlsafe_b64encode payload) = Some payload
        /\ decode_utf8 payload =
             Some (file_path (lit "abc") (lit "img.png") false ++ [0]
                   ++ lit "0"))
  /\ (exists (dt : datetime) (payload : bytes),
        downloadUrlFor_defaults testkey_conf (jan_1_2024 0 0 0) (lit "abc")
          (lit "img.png") =
          Ok (lit "/file/download/" ++ urlsafe_b64encode payload
              ++ lit "?sig="
              ++ hexlify (hmac_sha3_384 (lit "testkey")
                            (urlsafe_b64encode payload)))
        /\ urlsafe_b64decode (urlsafe_b64encode payload) = Some payload
        /\ decode_utf8 payload =
             Some (file_path (lit "abc") (lit "img.png") false ++ [0]
                   ++ strftime_YmdHM dt)
        /\ datetime_add (jan_1_2024 0 0 0) (timedelta_hours 1) = Ok dt
        /\ valid_datetime dt
        /\ datetime_us dt = datetime_us (jan_1_2024 0 0 0) + 3600 * 1000000).
Proof.
  assert (V : valid_timedelta zero_timedelta)
    by (unfold valid_timedelta; cbn; lia).
  assert (Hf : Forall encodable (lit "abc"))
    by (repeat constructor; unfold encodable; cbn; lia).
  assert (Hn : Forall encodable (lit "img.png"))
    by (repeat constructor; unfold encodable; cbn; lia).
  assert (Hr : expiry_in_range (jan_1_2024 0 0 0) (timedelta_hours 1))
    by (unfold expiry_in_range; vm_compute;
        split; [reflexivity | discriminate]).
  split; [exact V|]. split; [reflexivity|].
  pose proof
    (downloadUrlFor_zero_ttl testkey_conf (jan_1_2024 0 0 0) (lit "abc")
       (lit "img.png") false zero_timedelta V eq_refl) as T.
  split; [exact (proj1 (proj2 (proj2 T)))|].
  split.
  - exact (proj1 (proj2 (proj2 (proj2 T))) (lit "testkey") eq_refl Hf Hn).
  - exact (proj2 (proj2 (proj2 (proj2 (proj2 T)))) (lit "testkey") eq_refl
             Hf Hn Hr).
Defined.

(** ** Two calls in the same minute *)

(** C8, as stated, fails: with a ttl of thirty seconds, calls at 00:00:10
    and at 00:00:40 of the same minute issue different URLs (the stamps are
    ["202401010000"] and ["202401010001"]). *)
Lemma thirty_seconds_ttl_differs :
  same_minute (jan_1_2024 0 0 10) (jan_1_2024 0 0 40)
  /\ downloadUrlFor testkey_conf (jan_1_2024 0 0 10) (lit "abc")
       (lit "img.png") false (Some (timedelta_new 0 30 0)) =
     Ok (lit "/file/download/YWJjL3NvdXJjZS9pbWcucG5nADIwMjQwMTAxMDAwMA==?sig=03c71075c4578ef848dfb92c466b44a48b2de3ed5779321b15e5b16bffdfd6e851a7341b3627d8102ef280c67887f390")
  /\ downloadUrlFor testkey_conf (jan_1_2024 0 0 40) (lit "abc")
       (lit "img.png") false (Some (timedelta_new 0 30 0)) =
     Ok (lit "/file/download/YWJjL3NvdXJjZS9pbWcucG5nADIwMjQwMTAxMDAwMQ==?sig=8373865c00919744441af94ae60af510a925a63c17ef6fc28ae392b141cdfea8c49b608ab25d3004ff3ab86bfe0a662c").
Proof. vm_compute. repeat split; reflexivity. Qed.

Lemma same_minute_fields (a b : datetime) :
  same_minute a b ->
  toordinal a = toordinal b /\ hour a = hour b /\ minute a = minute b.
Proof.
  unfold same_minute, to_minute, toordinal.
  intros [= -> -> -> -> ->]. auto.
Qed.

Lemma datetime_of_us_minute (T : Z) :
  let M := T / 60000000 in
  T / 86400000000 = M / 1440
  /\ T / 3600000000 mod 24 = M / 60 mod 24
  /\ T / 60000000 mod 60 = M mod 60.
Proof. cbv zeta. repeat split; Z.div_mod_to_equations; lia. Qed.

Lemma strftime_of_us_minute (T T' : Z) :
  T / 60000000 = T' / 60000000 ->
  T / 86400000000 = T' / 86400000000
  /\ strftime_YmdHM (datetime_of_us T) = strftime_YmdHM (datetime_of_us T').
Proof.
  intros E.
  destruct (datetime_of_us_minute T) as (D & H & _).
  destruct (datetime_of_us_minute T') as (D' & H' & _).
  cbv zeta in *.
  assert (ED : T / 86400000000 = T' / 86400000000)
    by (rewrite D, D', E; reflexivity).
  assert (EH : T / 3600000000 mod 24 = T' / 3600000000 mod 24)
    by (rewrite H, H', E; reflexivity).
  split; [exact ED|].
  unfold datetime_of_us. rewrite ED.
  destruct (ord2ymd (T' / 86400000000)) as [[y m] d].
  unfold strftime_YmdHM; cbn [year month day hour minute].
  rewrite EH, E. reflexivity.
Qed.

(** C8, amended. Two calls with the same arguments, at clock readings of
    the same calendar minute, return the same result when the ttl is null
    or a whole number of minutes. The result depends on the configured key,
    the clock and the arguments only. *)
Theorem downloadUrlFor_same_minute (conf : Conf) (now1 now2 : datetime)
    (folder fileName : str) (derived : bool) (expires : option timedelta) :
  valid_datetime now1 -> valid_datetime now2 -> same_minute now1 now2 ->
  (forall td, expires = Some td ->
              td_seconds td mod 60 = 0 /\ td_microseconds td = 0) ->
  downloadUrlFor conf now1 folder fileName derived expires =
  downloadUrlFor conf now2 folder fileName derived expires.
Proof.
  intros V1 V2 Hsame Hw.
  rewrite !downloadUrlFor_eq.
  enough (E : expiry_stamp now1 expires = expiry_stamp now2 expires)
    by (rewrite E; reflexivity).
  destruct (truthy expires) eqn:Et;
    [|now rewrite !expiry_stamp_falsy by assumption].
  destruct expires as [td|]; [|discriminate]. cbn in Et.
  rewrite !(expiry_stamp_truthy _ _ Et). cbv zeta.
  destruct (Hw td eq_refl) as [Hs Hu].
  destruct (same_minute_fields _ _ Hsame) as (Eo & Eh & Em).
  destruct V1 as (_ & _ & _ & Hs1 & Hu1).
  destruct V2 as (_ & _ & _ & Hs2 & Hu2).
  destruct (strftime_of_us_minute (datetime_us now1 + timedelta_us td)
              (datetime_us now2 + timedelta_us td)) as [ED ES].
  { unfold datetime_us, timedelta_us. rewrite Eo, Eh, Em, Hu.
    Z.div_mod_to_equations. lia. }
  rewrite ED, ES. reflexivity.
Qed.

Lemma downloadUrlFor_same_minute_witness :
  same_minute (jan_1_2024 0 0 10) (jan_1_2024 0 0 40)
  /\ downloadUrlFor testkey_conf (jan_1_2024 0 0 10) (lit "abc")
       (lit "img.png") false (Some (timedelta_hours 1)) =
     downloadUrlFor testkey_conf (jan_1_2024 0 0 40) (lit "abc")
       (lit "img.png") false (Some (timedelta_hours 1)).
Proof.
  split; [reflexivity|].
  apply downloadUrlFor_same_minute.
  - vm_compute; repeat split; (reflexivity || discriminate).
  - vm_compute; repeat split; (reflexivity || discriminate).
  - reflexivity.
  - intros td [= <-]. split; reflexivity.
Defined.

(** ** Issuing and verifying *)

(** C9. Key ["testkey"], folder ["abc"], file ["img.png"], not derived, a
    ttl of 60 minutes, issued at 2024-01-01 00:00: the payload of the token
    is the path ["abc/source/img.png"] and the stamp ["202401010100"]; the
    token verifies at 00:30 and no longer at 02:00. *)
Theorem scenario_testkey :
  let encodedPath := lit "YWJjL3NvdXJjZS9pbWcucG5nADIwMjQwMTAxMDEwMA==" in
  let signature :=
    lit "68d21ccf514d82d640b76f3ce8a7dbe6869a2e68dd803cc964d89ec136cf49b2c2f21c52b4adcb2440ec99869e2addcd" in
  downloadUrlFor testkey_conf (jan_1_2024 0 0 0) (lit "abc") (lit "img.png")
    false (Some (timedelta_minutes 60)) =
    Ok (lit "/file/download/" ++ encodedPath ++ lit "?sig=" ++ signature)
  /\ decode_payload encodedPath =
       Some (lit "abc/source/img.png", lit "202401010100")
  /\ verifyDownloadURL testkey_conf (jan_1_2024 0 30 0) encodedPath signature
     = Ok {| valid := true; filePath := Some (lit "abc/source/img.png") |}
  /\ verifyDownloadURL testkey_conf (jan_1_2024 2 0 0) encodedPath signature
     = Ok {| valid := false; filePath := None |}.
Proof. vm_compute. repeat split; reflexivity. Qed.


Lemma str_eqb_length (a b : list Z) :
  length a <> length b -> str_eqb a b = false.
Proof.
  intros H. destruct (str_eqb a b) eqn:E; [|reflexivity].
  apply str_eqb_eq in E. subst. contradiction.
Qed.



(** * The other helpers *)

(** ** [escapeString] *)

Lemma replace_char_Forall (P : Z -> Prop) (old : Z) (new s : str) :
  Forall P new -> Forall (fun c => c = old \/ P c) s ->
  Forall P (replace_char old new s).
Proof.
  intros Hn Hs. unfold replace_char.
  induction Hs as [|c s Hc _ IH]; simpl; [constructor|].
  apply Forall_app; split; [|exact IH].
  destruct (Z.eqb_spec c old) as [->|Hne]; [exact Hn|].
  constructor; [|constructor]. destruct Hc; [contradiction | assumption].
Qed.

Lemma replace_char_absent (old : Z) (new s : str) :
  Forall (fun c => c <> old) s -> replace_char old new s = s.
Proof.
  unfold replace_char. induction 1 as [|c s Hc _ IH]; simpl; [reflexivity|].
  destruct (Z.eqb_spec c old); [contradiction|]. now rewrite IH.
Qed.

Lemma slice_to_Forall (P : Z -> Prop) (s : str) (n : Z) :
  Forall P s -> Forall P (slice_to s n).
Proof.
  intros H. unfold slice_to.
  assert (F : forall k, Forall P (firstn k s)).
  { intros k. rewrite <- (firstn_skipn k s) in H.
    apply Forall_app in H. apply H. }
  destruct (n <? 0); apply F.
Qed.

(** The text before the cut: [maxLength = 0] means no cut. *)
Lemma escapeString_cut (val : pyobj) (maxLength : Z) :
  escapeString val maxLength =
    if maxLength =? 0 then escapeString val 0
    else slice_to (escapeString val 0) maxLength.
Proof.
  unfold escapeString. destruct (maxLength =? 0); reflexivity.
Qed.

(** X1. The result of [escapeString] contains none of the characters
    [<], [>], double quote, apostrophe, newline and NUL, whatever the value
    and the length limit. *)
Theorem escapeString_no_markup (val : pyobj) (maxLength : Z) :
  Forall (fun c => ~ is_markup c) (escapeString val maxLength).
Proof.
  assert (H0 : Forall (fun c => ~ is_markup c) (escapeString val 0)).
  { unfold escapeString. cbn [Z.eqb negb].
    eapply Forall_impl with
      (P := fun c => c <> 0 /\ c <> 10 /\ c <> 39 /\ c <> 34 /\ c <> 62
                     /\ c <> 60);
      [unfold is_markup; intros; lia|].
    apply replace_char_Forall; [constructor|].
    eapply Forall_impl with
      (P := fun c => c <> 10 /\ c <> 39 /\ c <> 34 /\ c <> 62 /\ c <> 60);
      [intros; lia|].
    apply replace_char_Forall; [constructor|].
    eapply Forall_impl with
      (P := fun c => c <> 39 /\ c <> 34 /\ c <> 62 /\ c <> 60);
      [intros; lia|].
    apply replace_char_Forall; [repeat constructor; cbn; lia|].
    eapply Forall_impl with
      (P := fun c => c <> 34 /\ c <> 62 /\ c <> 60); [intros; lia|].
    apply replace_char_Forall; [repeat constructor; cbn; lia|].
    eapply Forall_impl with (P := fun c => c <> 62 /\ c <> 60);
      [intros; lia|].
    apply replace_char_Forall; [repeat constructor; cbn; lia|].
    eapply Forall_impl with (P := fun c => c <> 60); [intros; lia|].
    apply replace_char_Forall; [repeat constructor; cbn; lia|].
    apply Forall_forall. intros; lia. }
  rewrite escapeString_cut. destruct (maxLength =? 0); [exact H0|].
  apply slice_to_Forall, H0.
Qed.

(** X2. With a positive [maxLength] the result is the first [maxLength]
    characters of the unlimited result, so it is never longer than
    [maxLength]. *)
Theorem escapeString_maxLength (val : pyobj) (maxLength : Z) :
  0 < maxLength ->
  escapeString val maxLength =
    firstn (Z.to_nat maxLength) (escapeString val 0)
  /\ Z.of_nat (length (escapeString val maxLength)) <= maxLength.
Proof.
  intros H. rewrite escapeString_cut.
  destruct (Z.eqb_spec maxLength 0) as [|Hne]; [lia|].
  unfold slice_to. destruct (Z.ltb_spec maxLength 0) as [Hlt|Hge]; [lia|].
  split; [reflexivity|].
  pose proof (firstn_le_length (Z.to_nat maxLength) (escapeString val 0)).
  lia.
Qed.

Lemma escapeString_maxLength_witness :
  0 < 254
  /\ Z.of_nat (length (escapeString (OStr (lit "<b>")) 254)) <= 254.
Proof.
  split; [lia|].
  exact (proj2 (escapeString_maxLength (OStr (lit "<b>")) 254 eq_refl)).
Defined.

(** X3. A negative [maxLength] is not "unlimited": the slice then drops
    the last [-maxLength] characters of the escaped text, and everything
    when the text is no longer than that. *)
Theorem escapeString_negative_maxLength (val : pyobj) (maxLength : Z) :
  maxLength < 0 ->
  Z.of_nat (length (escapeString val maxLength)) =
    Z.max 0 (Z.of_nat (length (escapeString val 0)) + maxLength)
  /\ exists dropped,
       escapeString val 0 = escapeString val maxLength ++ dropped.
Proof.
  intros H. rewrite escapeString_cut.
  destruct (Z.eqb_spec maxLength 0) as [|Hne]; [lia|].
  unfold slice_to. destruct (Z.ltb_spec maxLength 0) as [Hlt|Hge]; [|lia].
  set (full := escapeString val 0).
  set (n := Z.to_nat (Z.of_nat (length full) + maxLength)).
  split.
  - rewrite length_firstn. subst n. lia.
  - exists (skipn n full). symmetry. apply firstn_skipn.
Qed.

Lemma escapeString_negative_maxLength_witness :
  -2 < 0
  /\ Z.of_nat (length (escapeString (OStr (lit "abcdef")) (-2))) =
       Z.max 0 (Z.of_nat (length (escapeString (OStr (lit "abcdef")) 0))
                + -2).
Proof.
  split; [lia|].
  exact (proj1 (escapeString_negative_maxLength (OStr (lit "abcdef")) (-2)
                  eq_refl)).
Defined.

Lemma lstrip_id (s : str) :
  (forall c, hd_error s = Some c -> is_space c = false) -> lstrip s = s.
Proof.
  destruct s as [|c r]; [reflexivity|]. intros H. simpl.
  now rewrite (H c eq_refl).
Qed.

Lemma strip_id (s : str) :
  (forall c, hd_error s = Some c -> is_space c = false) ->
  (forall c, hd_error (rev s) = Some c -> is_space c = false) ->
  strip s = s.
Proof.
  intros Hh Hl. unfold strip, rstrip.
  rewrite (lstrip_id s Hh), (lstrip_id (rev s) Hl). apply rev_involutive.
Qed.

(** X4. A string without markup characters and without white space at
    either end, of at most [maxLength] characters (or with [maxLength = 0]),
    is returned unchanged. *)
Theorem escapeString_clean (s : str) (maxLength : Z) :
  Forall (fun c => ~ is_markup c) s ->
  (forall c, hd_error s = Some c -> is_space c = false) ->
  (forall c, hd_error (rev s) = Some c -> is_space c = false) ->
  maxLength = 0 \/ Z.of_nat (length s) <= maxLength ->
  escapeString (OStr s) maxLength = s.
Proof.
  intros Hm Hh Hl Hlen.
  assert (H0 : escapeString (OStr s) 0 = s).
  { unfold escapeString. cbn [Z.eqb negb py_str].
    rewrite (strip_id s Hh Hl).
    assert (A : forall old, is_markup old -> Forall (fun c => c <> old) s).
    { intros old Ho. eapply Forall_impl; [|exact Hm].
      intros c Hc ->. contradiction. }
    rewrite (replace_char_absent 60), (replace_char_absent 62),
      (replace_char_absent 34), (replace_char_absent 39),
      (replace_char_absent 10), (replace_char_absent 0);
      try reflexivity; apply A; unfold is_markup; lia. }
  rewrite escapeString_cut, H0.
  destruct (Z.eqb_spec maxLength 0) as [|Hne]; [reflexivity|].
  unfold slice_to. destruct (Z.ltb_spec maxLength 0) as [Hlt|Hge]; [lia|].
  apply firstn_all2. lia.
Qed.

Lemma escapeString_clean_witness :
  escapeString (OStr (lit "a&b c")) 254 = lit "a&b c".
Proof.
  apply escapeString_clean.
  - repeat constructor; unfold is_markup; cbn; lia.
  - intros c [= <-]. reflexivity.
  - intros c [= <-]. reflexivity.
  - right. cbn. lia.
Defined.

(** ** [generateRandomString] *)

Lemma ascii_letters_digits_alnum : Forall is_alnum ascii_letters_digits.
Proof.
  apply Forall_forall. intros c Hc. vm_compute in Hc.
  repeat (destruct Hc as [<-|Hc]; [unfold is_alnum; lia|]).
  contradiction.
Qed.

(** X5. When every draw is an index into the 62 letters and digits, the
    string has exactly [length] characters (none for a negative [length]),
    all of them ASCII letters or digits. *)
Theorem generateRandomString_alnum (rnd : nat -> Z) (length : Z) :
  (forall i, 0 <= rnd i < 62) ->
  Datatypes.length (fst (generateRandomString rnd length))
    = Z.to_nat length
  /\ Forall is_alnum (fst (generateRandomString rnd length)).
Proof.
  intros Hr. unfold generateRandomString, random_choices. cbn [fst].
  split; [now rewrite length_map, length_seq|].
  apply Forall_forall. intros c Hc.
  apply in_map_iff in Hc as (i & <- & _).
  pose proof ascii_letters_digits_alnum as A.
  rewrite Forall_forall in A. apply A, nth_In.
  specialize (Hr i). change (Datatypes.length ascii_letters_digits) with 62%nat.
  lia.
Qed.

Lemma generateRandomString_alnum_witness :
  (forall i : nat, 0 <= (fun _ => 7) i < 62)
  /\ Datatypes.length (fst (generateRandomString (fun _ => 7) 13)) = 13%nat.
Proof.
  assert (H : forall i : nat, 0 <= (fun _ : nat => 7) i < 62)
    by (intros; cbn; lia).
  split; [exact H|].
  exact (proj1 (generateRandomString_alnum (fun _ => 7) 13 H)).
Defined.

Lemma alnum_not_markup (c : Z) : is_alnum c -> ~ is_markup c.
Proof. unfold is_alnum, is_markup. lia. Qed.

Lemma alnum_not_space (c : Z) : is_alnum c -> is_space c = false.
Proof.
  intros H.
  assert (R : 48 <= c < 48 + Z.of_nat 75) by (unfold is_alnum in H; lia).
  assert (C : forall_range (fun c => negb (is_space c)) 75 48 = true)
    by (vm_compute; reflexivity).
  apply negb_true_iff.
  exact (forall_range_spec (fun c => negb (is_space c)) 75 48 c C R).
Qed.

(** X6. Random strings need no escaping: [escapeString] returns a string
    made by [generateRandomString] unchanged, as long as it fits the length
    limit. *)
Theorem escapeString_generateRandomString (rnd : nat -> Z)
    (length maxLength : Z) :
  (forall i, 0 <= rnd i < 62) ->
  maxLength = 0 \/ length <= maxLength ->
  escapeString (OStr (fst (generateRandomString rnd length))) maxLength =
  fst (generateRandomString rnd length).
Proof.
  intros Hr Hl.
  destruct (generateRandomString_alnum rnd length Hr) as [Hlen Ha].
  destruct (Z.ltb_spec length 0) as [Hneg|Hpos].
  { destruct (fst (generateRandomString rnd length)) as [|c r];
      [|cbn in Hlen; lia].
    rewrite escapeString_cut. destruct (maxLength =? 0); [reflexivity|].
    unfold slice_to. destruct (maxLength <? 0); apply firstn_nil. }
  assert (Hin : forall s c, Forall is_alnum s -> hd_error s = Some c ->
                            is_space c = false).
  { intros s c Hs Hc. destruct s as [|x r]; [discriminate|].
    injection Hc as <-. inversion Hs; subst. now apply alnum_not_space. }
  apply escapeString_clean.
  - eapply Forall_impl; [|exact Ha]. apply alnum_not_markup.
  - intros c. apply Hin, Ha.
  - intros c. apply Hin. apply Forall_rev, Ha.
  - destruct Hl as [->|Hl]; [now left|right]. rewrite Hlen. lia.
Qed.

Lemma escapeString_generateRandomString_witness :
  escapeString (OStr (fst (generateRandomString (fun _ => 7) 13))) 254 =
  fst (generateRandomString (fun _ => 7) 13).
Proof.
  apply escapeString_generateRandomString.
  - intros; cbn; lia.
  - right; lia.
Defined.

(** ** [normalizeKey] *)

(** X7. [normalizeKey] keeps the kinds and the ids or names of the key
    and of all its ancestors, and puts every one of them into the running
    application; [None] stays [None]. *)
Theorem normalizeKey_path (app : str) (key : Key) :
  normalizeKey app None = None
  /\ exists key',
       normalizeKey app (Some key) = Some key'
       /\ key_path key' = key_path key
       /\ Forall (fun a => a = app) (key_applications key').
Proof.
  split; [reflexivity|].
  exists (normalizeKey_some app key). split; [reflexivity|].
  induction key as [a k i|a k i p [IHp IHa]]; cbn.
  - split; [reflexivity | repeat constructor].
  - split; [now rewrite IHp | constructor; [reflexivity | exact IHa]].
Qed.

(** X8. Normalizing for one application and then for another gives what
    normalizing for the last one alone gives; in particular normalizing
    twice changes nothing more, and a key that lies in the running
    application with all its ancestors is left as it is. *)
Theorem normalizeKey_twice (app app' : str) (key : option Key) :
  normalizeKey app (normalizeKey app' key) = normalizeKey app key
  /\ (forall k, key = Some k ->
        Forall (fun a => a = app) (key_applications k) ->
        normalizeKey app key = key).
Proof.
  split.
  - destruct key as [k|]; [|reflexivity]. cbn. f_equal.
    induction k as [a kd i|a kd i p IH]; cbn; [reflexivity|].
    now rewrite IH.
  - intros k -> H. cbn. f_equal.
    induction k as [a kd i|a kd i p IH]; cbn in *.
    + inversion H; subst. reflexivity.
    + inversion H; subst. now rewrite IH.
Qed.

Lemma normalizeKey_twice_witness :
  normalizeKey (lit "shop")
    (Some (KeyChild (lit "shop") (lit "file") (OInt 7)
             (KeyRoot (lit "shop") (lit "folder") (OStr (lit "a"))))) =
  Some (KeyChild (lit "shop") (lit "file") (OInt 7)
          (KeyRoot (lit "shop") (lit "folder") (OStr (lit "a")))).
Proof.
  apply (proj2 (normalizeKey_twice (lit "shop") (lit "other") _) _ eq_refl).
  repeat constructor.
Defined.

(** ** [markFileForDeletion] *)

(** X9. A file that is already marked is left alone, and marking a file
    twice is the same as marking it once, on every datastore that finds
    the marker it has just been given. *)
Theorem markFileForDeletion_twice {Store : Type}
    (getEntry : Store -> str -> str -> pyobj -> option Entity)
    (Put : Store -> Entity -> Store) (db : Store) (dlkey : str) :
  (forall db', exists e,
      getEntry (Put db' (deletion_marker (OStr dlkey)))
        (lit "viur-deleted-files") (lit "dlkey") (OStr dlkey) = Some e
      /\ entity_truthy e = true) ->
  markFileForDeletion getEntry Put
    (markFileForDeletion getEntry Put db (OStr dlkey)) (OStr dlkey) =
  markFileForDeletion getEntry Put db (OStr dlkey)
  /\ (forall e,
        getEntry db (lit "viur-deleted-files") (lit "dlkey") (OStr dlkey)
          = Some e ->
        entity_truthy e = true ->
        markFileForDeletion getEntry Put db (OStr dlkey) = db).
Proof.
  intros Hfind.
  assert (Hkeep : forall d e,
            getEntry d (lit "viur-deleted-files") (lit "dlkey") (OStr dlkey)
              = Some e ->
            entity_truthy e = true ->
            markFileForDeletion getEntry Put d (OStr dlkey) = d).
  { intros d e He Ht. unfold markFileForDeletion. now rewrite He, Ht. }
  split; [|apply Hkeep].
  assert (C : markFileForDeletion getEntry Put db (OStr dlkey) = db
              \/ markFileForDeletion getEntry Put db (OStr dlkey)
                 = Put db (deletion_marker (OStr dlkey))).
  { unfold markFileForDeletion.
    destruct (getEntry db _ _ _) as [e|]; [|now right].
    destruct (entity_truthy e); [now left | now right]. }
  destruct C as [C|C]; rewrite C.
  - exact C.
  - destruct (Hfind db) as (e' & He' & Ht'). now apply (Hkeep _ e').
Qed.

Lemma lookup_prop_truthy (prop : str) (e : Entity) (v : pyobj) :
  lookup_prop prop (entity_props e) = Some v -> entity_truthy e = true.
Proof.
  unfold entity_truthy. destruct (entity_props e); [discriminate|reflexivity].
Qed.

Lemma list_store_finds (db : list Entity) (dlkey : str) :
  exists e,
    list_getEntry (list_Put db (deletion_marker (OStr dlkey)))
      (lit "viur-deleted-files") (lit "dlkey") (OStr dlkey) = Some e
    /\ entity_truthy e = true.
Proof.
  unfold list_getEntry, list_Put.
  induction db as [|x db IH]; cbn [app find].
  - exists (deletion_marker (OStr dlkey)).
    cbn. rewrite str_eqb_refl. split; reflexivity.
  - destruct (str_eqb (entity_kind x) (lit "viur-deleted-files")
              && match lookup_prop (lit "dlkey") (entity_props x) with
                 | Some v => pyobj_eqb v (OStr dlkey)
                 | None => false
                 end) eqn:E; [|exact IH].
    exists x. split; [reflexivity|].
    apply andb_true_iff in E as [_ E].
    destruct (lookup_prop (lit "dlkey") (entity_props x)) eqn:L;
      [|discriminate].
    eapply lookup_prop_truthy; eauto.
Qed.

Lemma markFileForDeletion_twice_witness :
  markFileForDeletion list_getEntry list_Put
    (markFileForDeletion list_getEntry list_Put [] (OStr (lit "k1")))
    (OStr (lit "k1")) =
  markFileForDeletion list_getEntry list_Put [] (OStr (lit "k1")).
Proof.
  apply (markFileForDeletion_twice list_getEntry list_Put [] (lit "k1")).
  intros db'. apply list_store_finds.
Defined.

(** ** [sendEMail] *)

Section MailProperties.

Context {Skel Attachment Header Params Args Kwargs Ret Exc : Type}.

Implicit Types
  (conf : MailConf Skel Attachment Header Params Args Kwargs Ret Exc)
  (env : Env) (dests cc bcc : arg str) (file template sender replyTo : option str)
  (skel : Skel) (attachments : arg Attachment) (header : Header)
  (template_params : Params) (args : Args) (kwargs : Kwargs).

(** The call of the handler, when it comes to it. *)
Lemma sendEMail_call conf env dests file template skel attachments sender
    cc bcc replyTo header template_params args kwargs routed handler subject body :
  xorb (str_truthy file) (str_truthy template) = true ->
  final_dests (viur_emailRecipientOverride conf) (normalizeToList dests)
    = Some routed ->
  viur_emailHandler conf = HandlerCallable handler ->
  viur_emailRenderer conf
    {| r_dests := routed; r_file := file; r_template := template;
       r_skel := skel; r_template_params := template_params;
       r_kwargs := kwargs |} = Done (subject, body) ->
  sendEMail conf env dests file template skel attachments sender cc bcc
    replyTo header template_params args kwargs =
  handed (handler
            {| h_dests := routed;
               h_sender := final_sender (viur_emailSenderOverride conf) env
                             sender;
               h_cc := normalizeToList cc; h_bcc := normalizeToList bcc;
               h_replyTo := replyTo; h_subject := subject;
               h_header := header; h_body := body;
               h_attachments := normalizeToList attachments;
               h_args := args; h_kwargs := kwargs |}).
Proof.
  intros Hx Hd Hh Hr. unfold sendEMail, final_dests in *.
  rewrite Hx. cbn [negb].
  destruct (override_truthy (viur_emailRecipientOverride conf)).
  - injection Hd as <-. rewrite Hh, Hr. reflexivity.
  - destruct (override_is_False (viur_emailRecipientOverride conf));
      [discriminate|].
    injection Hd as <-. rewrite Hh, Hr. reflexivity.
Qed.

(** X10. [sendEMail] raises its [ValueError] exactly when [file] and
    [template] are both set or both unset (empty counts as unset), and it
    does so whatever the configuration says. *)
Theorem sendEMail_file_xor_template conf env dests file template skel
    attachments sender cc bcc replyTo header template_params args kwargs :
  (exists msg,
     sendEMail conf env dests file template skel attachments sender cc bcc
       replyTo header template_params args kwargs = Raises (ValueError msg))
  <-> str_truthy file = str_truthy template.
Proof.
  unfold sendEMail.
  destruct (str_truthy file), (str_truthy template); cbn [xorb negb];
    split; intros H; try reflexivity; try (eexists; reflexivity);
    try discriminate; exfalso; destruct H as [msg H]; revert H;
    repeat match goal with
      | |- context [match ?x with _ => _ end] => destruct x
      end; discriminate.
Qed.

(** X11. With [conf["viur.emailRecipientOverride"]] set to [False] a
    well-formed call returns [False]: neither the renderer nor the handler
    is called, and a missing handler is not reported. *)
Theorem sendEMail_disabled conf env dests file template skel attachments
    sender cc bcc replyTo header template_params args kwargs :
  viur_emailRecipientOverride conf = OvFalse ->
  xorb (str_truthy file) (str_truthy template) = true ->
  sendEMail conf env dests file template skel attachments sender cc bcc
    replyTo header template_params args kwargs = Returns RetFalse.
Proof.
  intros Ho Hx. unfold sendEMail. rewrite Hx, Ho. reflexivity.
Qed.

Lemma mangle_no_at_dot (oldDest : str) :
  Forall (fun c => c <> 64 /\ c <> 46) (mangle oldDest).
Proof.
  unfold mangle.
  eapply Forall_impl with (P := fun c => c <> 46 /\ c <> 64);
    [intros; lia|].
  apply replace_char_Forall with (P := fun c => c <> 46 /\ c <> 64);
    [repeat constructor; cbn; lia|].
  eapply Forall_impl with (P := fun c => c <> 46); [intros; lia|].
  apply replace_char_Forall; [repeat constructor; cbn; lia|].
  apply Forall_forall. intros; lia.
Qed.

Lemma override_dests_spec (newDests oldDests : list str) :
  Forall
    (fun d =>
       (In d newDests /\ startswith_at d = false)
       \/ exists o old,
            In o newDests /\ startswith_at o = true /\ In old oldDests
            /\ d = mangle old ++ o)
    (override_dests newDests oldDests).
Proof.
  unfold override_dests. apply Forall_forall. intros d Hd.
  apply in_flat_map in Hd as (o & Ho & Hd).
  destruct (startswith_at o) eqn:E.
  - apply in_map_iff in Hd as (old & <- & Hold). right. eauto 6.
  - destruct Hd as [<-|[]]. left. auto.
Qed.

(** X12. With a recipient override in force, the handler gets no address
    of the caller: every destination is an override address, or an
    override suffix (one that starts with an at sign) put behind an
    original address in which every dot and at sign has been spelled
    out. *)
Theorem sendEMail_override conf env dests file template skel attachments
    sender cc bcc replyTo header template_params args kwargs handler subject
    body :
  override_truthy (viur_emailRecipientOverride conf) = true ->
  xorb (str_truthy file) (str_truthy template) = true ->
  viur_emailHandler conf = HandlerCallable handler ->
  viur_emailRenderer conf
    {| r_dests := override_dests
                    (override_list (viur_emailRecipientOverride conf))
                    (normalizeToList dests);
       r_file := file; r_template := template; r_skel := skel;
       r_template_params := template_params; r_kwargs := kwargs |}
    = Done (subject, body) ->
  exists call,
    sendEMail conf env dests file template skel attachments sender cc bcc
      replyTo header template_params args kwargs = handed (handler call)
    /\ h_dests call =
         override_dests (override_list (viur_emailRecipientOverride conf))
           (normalizeToList dests)
    /\ Forall
         (fun d =>
            (In d (override_list (viur_emailRecipientOverride conf))
             /\ startswith_at d = false)
            \/ exists o old,
                 In o (override_list (viur_emailRecipientOverride conf))
                 /\ startswith_at o = true
                 /\ In old (normalizeToList dests)
                 /\ d = mangle old ++ o
                 /\ Forall (fun c => c <> 64 /\ c <> 46) (mangle old))
         (h_dests call).
Proof.
  intros Ho Hx Hh Hr.
  eexists. split.
  - eapply sendEMail_call; eauto. unfold final_dests. now rewrite Ho.
  - cbn [h_dests]. split; [reflexivity|].
    eapply Forall_impl; [|apply override_dests_spec].
    intros d [H|(o & old & H1 & H2 & H3 & H4)]; [now left|right].
    exists o, old. repeat split; auto. apply mangle_no_at_dot.
Qed.

(** X13. The recipient override leaves [cc] and [bcc] alone: whenever
    the handler is called, it gets [cc], [bcc], [replyTo], the header and
    the attachments as the caller passed them (a single value as a
    one-element list, [None] as the empty list). *)
Theorem sendEMail_cc_bcc conf env dests file template skel attachments
    sender cc bcc replyTo header template_params args kwargs routed handler
    subject body :
  xorb (str_truthy file) (str_truthy template) = true ->
  final_dests (viur_emailRecipientOverride conf) (normalizeToList dests)
    = Some routed ->
  viur_emailHandler conf = HandlerCallable handler ->
  viur_emailRenderer conf
    {| r_dests := routed; r_file := file; r_template := template;
       r_skel := skel; r_template_params := template_params;
       r_kwargs := kwargs |} = Done (subject, body) ->
  exists call,
    sendEMail conf env dests file template skel attachments sender cc bcc
      replyTo header template_params args kwargs = handed (handler call)
    /\ h_cc call = normalizeToList cc
    /\ h_bcc call = normalizeToList bcc
    /\ h_replyTo call = replyTo
    /\ h_header call = header
    /\ h_attachments call = normalizeToList attachments
    /\ h_subject call = subject /\ h_body call = body.
Proof.
  intros Hx Hd Hh Hr. eexists. split.
  - eapply sendEMail_call; eauto.
  - cbn. repeat split.
Qed.

(** X14. With sending not disabled, a well-formed call fails with
    [InvalidConfigException] when no handler is configured or the
    configured one is not callable; the renderer is not called. *)
Theorem sendEMail_no_handler conf env dests file template skel attachments
    sender cc bcc replyTo header template_params args kwargs routed :
  xorb (str_truthy file) (str_truthy template) = true ->
  final_dests (viur_emailRecipientOverride conf) (normalizeToList dests)
    = Some routed ->
  (viur_emailHandler conf = HandlerNone ->
   sendEMail conf env dests file template skel attachments sender cc bcc
     replyTo header template_params args kwargs =
   Raises (InvalidConfigException (lit "No emailHandler specified!")))
  /\ (viur_emailHandler conf = HandlerNotCallable ->
      sendEMail conf env dests file template skel attachments sender cc bcc
        replyTo header template_params args kwargs =
      Raises (InvalidConfigException
                (lit "Invalid emailHandler configured, no email will be sent!"))).
Proof.
  intros Hx Hd. unfold sendEMail, final_dests in *.
  rewrite Hx. cbn [negb].
  destruct (override_truthy (viur_emailRecipientOverride conf)).
  - split; intros ->; reflexivity.
  - destruct (override_is_False (viur_emailRecipientOverride conf));
      [discriminate|].
    split; intros ->; reflexivity.
Qed.

(** X15. The sender the handler gets: a configured sender override beats
    the sender the caller passes; without an override a passed sender is
    kept, the empty string included; only a missing sender is replaced by
    the address of the running application. *)
Theorem sendEMail_sender conf env dests file template skel attachments
    sender cc bcc replyTo header template_params args kwargs routed handler
    subject body :
  xorb (str_truthy file) (str_truthy template) = true ->
  final_dests (viur_emailRecipientOverride conf) (normalizeToList dests)
    = Some routed ->
  viur_emailHandler conf = HandlerCallable handler ->
  viur_emailRenderer conf
    {| r_dests := routed; r_file := file; r_template := template;
       r_skel := skel; r_template_params := template_params;
       r_kwargs := kwargs |} = Done (subject, body) ->
  exists call,
    sendEMail conf env dests file template skel attachments sender cc bcc
      replyTo header template_params args kwargs = handed (handler call)
    /\ (forall o, viur_emailSenderOverride conf = Some o -> o <> [] ->
          h_sender call = o)
    /\ (str_truthy (viur_emailSenderOverride conf) = false ->
        forall s, sender = Some s -> h_sender call = s)
    /\ (str_truthy (viur_emailSenderOverride conf) = false ->
        sender = None ->
        h_sender call =
          if opt_str_eqb (GAE_ENV env) (lit "localdev")
          then lit "viur@localdev." ++ fmt (projectID env)
               ++ lit ".appspotmail.com"
          else lit "viur@" ++ fmt (GAE_VERSION env) ++ lit "."
               ++ fmt (projectID env) ++ lit ".appspotmail.com").
Proof.
  intros Hx Hd Hh Hr. eexists. split.
  - eapply sendEMail_call; eauto.
  - cbn [h_sender]. unfold final_sender. repeat split.
    + intros o -> Ho. destruct o; [contradiction|reflexivity].
    + intros -> s ->. reflexivity.
    + intros -> ->. reflexivity.
Qed.

End MailProperties.

Lemma sendEMail_disabled_witness :
  sendEMail (sample_mail_conf OvFalse None HandlerNone) sample_env
    (ArgOne (lit "a.b@c.de")) None (Some (lit "Hello")) tt ArgNone None
    ArgNone ArgNone None tt tt tt tt = Returns RetFalse.
Proof. apply sendEMail_disabled; reflexivity. Defined.

Lemma sendEMail_override_witness :
  exists call,
    sendEMail
      (sample_mail_conf (OvStr (lit "@dev.example")) None
         (HandlerCallable echo_handler))
      sample_env (ArgOne (lit "a.b@c.de")) None (Some (lit "Hello")) tt
      ArgNone None ArgNone ArgNone None tt tt tt tt = handed (echo_handler call)
    /\ h_dests call = [lit "a_dot_b_at_c_dot_de@dev.example"].
Proof.
  destruct (sendEMail_override
              (sample_mail_conf (OvStr (lit "@dev.example")) None
                 (HandlerCallable echo_handler))
              sample_env (ArgOne (lit "a.b@c.de")) None (Some (lit "Hello"))
              tt ArgNone None ArgNone ArgNone None tt tt tt tt echo_handler
              (lit "subject") (lit "body") eq_refl eq_refl eq_refl eq_refl)
    as (call & H1 & H2 & _).
  exists call. split; [exact H1 | exact H2].
Defined.

Lemma sendEMail_cc_bcc_witness :
  exists call,
    sendEMail
      (sample_mail_conf (OvStr (lit "@dev.example")) None
         (HandlerCallable echo_handler))
      sample_env (ArgOne (lit "a.b@c.de")) None (Some (lit "Hello")) tt
      ArgNone None (ArgOne (lit "boss@c.de")) ArgNone None tt tt tt tt
      = handed (echo_handler call)
    /\ h_cc call = [lit "boss@c.de"].
Proof.
  destruct (sendEMail_cc_bcc
              (sample_mail_conf (OvStr (lit "@dev.example")) None
                 (HandlerCallable echo_handler))
              sample_env (ArgOne (lit "a.b@c.de")) None (Some (lit "Hello"))
              tt ArgNone None (ArgOne (lit "boss@c.de")) ArgNone None tt tt
              tt tt [lit "a_dot_b_at_c_dot_de@dev.example"] echo_handler
              (lit "subject") (lit "body") eq_refl eq_refl eq_refl eq_refl)
    as (call & H1 & H2 & _).
  exists call. split; [exact H1 | exact H2].
Defined.

Lemma sendEMail_no_handler_witness :
  sendEMail (sample_mail_conf OvNone None HandlerNone) sample_env
    (ArgOne (lit "a.b@c.de")) None (Some (lit "Hello")) tt ArgNone None
    ArgNone ArgNone None tt tt tt tt =
  Raises (InvalidConfigException (lit "No emailHandler specified!")).
Proof.
  apply (proj1 (sendEMail_no_handler
                  (sample_mail_conf OvNone None HandlerNone) sample_env
                  (ArgOne (lit "a.b@c.de")) None (Some (lit "Hello")) tt
                  ArgNone None ArgNone ArgNone None tt tt tt tt
                  [lit "a.b@c.de"] eq_refl eq_refl)).
  reflexivity.
Defined.

Lemma sendEMail_sender_witness :
  exists call,
    sendEMail
      (sample_mail_conf OvNone (Some (lit "noreply@c.de"))
         (HandlerCallable echo_handler))
      sample_env (ArgOne (lit "a.b@c.de")) None (Some (lit "Hello")) tt
      ArgNone (Some (lit "me@c.de")) ArgNone ArgNone None tt tt tt tt
      = handed (echo_handler call)
    /\ h_sender call = lit "noreply@c.de".
Proof.
  destruct (sendEMail_sender
              (sample_mail_conf OvNone (Some (lit "noreply@c.de"))
                 (HandlerCallable echo_handler))
              sample_env (ArgOne (lit "a.b@c.de")) None (Some (lit "Hello"))
              tt ArgNone (Some (lit "me@c.de")) ArgNone ArgNone None tt tt
              tt tt [lit "a.b@c.de"] echo_handler (lit "subject") (lit "body")
              eq_refl eq_refl eq_refl eq_refl)
    as (call & H1 & H2 & _).
  exists call. split; [exact H1|].
  apply (H2 (lit "noreply@c.de") eq_refl). discriminate.
Defined.

(** ** More on [downloadUrlFor] *)

Lemma downloadUrlFor_inv (conf : Conf) (now : datetime)
    (folder fileName : str) (derived : bool) (expires : option timedelta)
    (url : str) :
  downloadUrlFor conf now folder fileName derived expires = Ok url ->
  exists stamp payload signature,
    expiry_stamp now expires = Ok stamp
    /\ encode_utf8 (file_path folder fileName derived ++ [0] ++ stamp)
       = Ok payload
    /\ hmacSign conf (VBytes (urlsafe_b64encode payload)) = Ok signature
    /\ url = lit "/file/download/" ++ urlsafe_b64encode payload
             ++ lit "?sig=" ++ signature.
Proof.
  rewrite downloadUrlFor_eq. intros H.
  apply bind_inv_Ok in H as (stamp & Hs & H).
  apply bind_inv_Ok in H as (payload & Hp & H).
  apply bind_inv_Ok in H as (signature & Hg & H).
  apply Ok_inj in H. eauto 8.
Qed.

Lemma b64char_url (i : Z) : 0 <= i < 64 -> is_url_char (b64char i).
Proof.
  unfold b64char, is_url_char, is_alnum. intros H.
  destruct (Z.ltb_spec i 26); [lia|].
  destruct (Z.ltb_spec i 52); [lia|].
  destruct (Z.ltb_spec i 62); [lia|].
  destruct (Z.eqb_spec i 62); lia.
Qed.

Lemma urlsafe_b64encode_url (bs : bytes) :
  Forall is_byte bs -> Forall is_url_char (urlsafe_b64encode bs).
Proof.
  induction bs as [|a|a b|a b c r IH] using list_ind3; intros H;
    repeat match goal with
      | H : Forall _ (_ :: _) |- _ => inversion H; clear H; subst
      end; cbn [urlsafe_b64encode];
    repeat (apply Forall_cons;
            [first [apply b64char_url; b64idx
                   | unfold is_url_char; lia]|]);
    auto.
Qed.

(** X16. An issued URL consists of ASCII letters, digits and the
    characters [/ ? = - _] only: it needs no further quoting. *)
Theorem downloadUrlFor_url_chars (conf : Conf) (now : datetime)
    (folder fileName : str) (derived : bool) (expires : option timedelta)
    (url : str) :
  downloadUrlFor conf now folder fileName derived expires = Ok url ->
  Forall is_url_char url.
Proof.
  intros H.
  apply downloadUrlFor_inv in H
    as (stamp & payload & signature & _ & Hp & Hg & ->).
  apply encode_utf8_bytes in Hp. apply hmacSign_lower_hex in Hg as [_ Hg].
  repeat (apply Forall_app; split).
  - repeat (apply Forall_cons; [unfold is_url_char, is_alnum; cbn; lia|]).
    constructor.
  - apply urlsafe_b64encode_url, Hp.
  - repeat (apply Forall_cons; [unfold is_url_char, is_alnum; cbn; lia|]).
    constructor.
  - eapply Forall_impl; [|exact Hg].
    unfold is_lower_hex, is_url_char, is_alnum. intros; lia.
Qed.

Lemma downloadUrlFor_url_chars_witness :
  Forall is_url_char
    (lit "/file/download/YWJjL3NvdXJjZS9pbWcucG5nADIwMjQwMTAxMDEwMA==?sig=68d21ccf514d82d640b76f3ce8a7dbe6869a2e68dd803cc964d89ec136cf49b2c2f21c52b4adcb2440ec99869e2addcd").
Proof.
  apply (downloadUrlFor_url_chars testkey_conf (jan_1_2024 0 0 0)
           (lit "abc") (lit "img.png") false
           (Some (timedelta_minutes 60))).
  vm_compute. reflexivity.
Defined.

Lemma encode_utf8_Raise (s : str) (e : exn) :
  encode_utf8 s = Raise e -> e = UnicodeEncodeError.
Proof.
  induction s as [|c s IH]; simpl; [discriminate|].
  destruct (utf8_encode_cp c) as [b|e'] eqn:E; simpl.
  - destruct (encode_utf8 s) as [bs|e'']; simpl; [discriminate|].
    intros [= <-]. now apply IH.
  - intros [= <-]. revert E. unfold utf8_encode_cp.
    repeat match goal with
      | |- context [if ?b then _ else _] => destruct b
      end; congruence.
Qed.

Lemma encode_utf8_Raise_iff (s : str) :
  encode_utf8 s = Raise UnicodeEncodeError <-> ~ Forall encodable s.
Proof.
  rewrite encode_utf8_Ok. split.
  - intros H [b Hb]. congruence.
  - intros H. destruct (encode_utf8 s) as [b|e] eqn:E.
    + exfalso. eauto.
    + now rewrite (encode_utf8_Raise _ _ E).
Qed.

Lemma payload_encodable (folder fileName stamp : str) (derived : bool) :
  Forall (fun c => 0 < c < 128) stamp ->
  Forall encodable (file_path folder fileName derived ++ [0] ++ stamp)
  <-> Forall encodable (folder ++ fileName).
Proof.
  intros Hs.
  assert (Forall encodable stamp)
    by (eapply Forall_impl; [|exact Hs]; unfold encodable;
        intros; simpl in *; lia).
  assert (Forall encodable (lit "/derived/"))
    by (repeat (apply Forall_cons; [unfold encodable; cbn; lia|]);
        constructor).
  assert (Forall encodable (lit "/source/"))
    by (repeat (apply Forall_cons; [unfold encodable; cbn; lia|]);
        constructor).
  assert (Forall encodable [0])
    by (constructor; [unfold encodable; lia | constructor]).
  unfold file_path. destruct derived; split; intros HF;
    repeat match goal with
      | H : Forall _ (_ ++ _) |- _ => apply Forall_app in H as [? ?]
      end;
    repeat (apply Forall_app; split); assumption.
Qed.

Lemma expiry_stamp_Raise (now : datetime) (expires : option timedelta)
    (e : exn) :
  expiry_stamp now expires = Raise e <->
  e = OverflowError
  /\ exists td, expires = Some td /\ timedelta_bool td = true
                /\ ~ expiry_in_range now td.
Proof.
  destruct (truthy expires) eqn:Et.
  - destruct expires as [td|]; [|discriminate]. cbn in Et.
    rewrite (expiry_stamp_truthy _ _ Et). cbv zeta. unfold expiry_in_range.
    set (d := (datetime_us now + timedelta_us td) / 86400000000).
    destruct (Z.ltb_spec 0 d); destruct (Z.leb_spec d MAXORDINAL);
      cbn [andb]; split;
      try discriminate;
      try (intros [= <-]; split; [reflexivity|];
           exists td; repeat split; auto; lia);
      try (intros (-> & td' & [= <-] & _ & Hn); try reflexivity;
           exfalso; apply Hn; lia).
  - rewrite (expiry_stamp_falsy _ _ Et). split; [discriminate|].
    intros (_ & td & -> & Hb & _). cbn in Et. congruence.
Qed.

(** X17. The failures of [downloadUrlFor], in the order they are met:
    [OverflowError] exactly when the ttl is truthy and [now + ttl] leaves
    the years 1 to 9999; else [UnicodeEncodeError] exactly when the folder
    or the file name has a character that UTF-8 cannot encode; else the
    assertion on the key exactly when no key is configured. It raises
    nothing else. *)
Theorem downloadUrlFor_failures (conf : Conf) (now : datetime)
    (folder fileName : str) (derived : bool) (expires : option timedelta) :
  (downloadUrlFor conf now folder fileName derived expires
     = Raise OverflowError
   <-> exists td, expires = Some td /\ timedelta_bool td = true
                  /\ ~ expiry_in_range now td)
  /\ (downloadUrlFor conf now folder fileName derived expires
        = Raise UnicodeEncodeError
      <-> (exists stamp, expiry_stamp now expires = Ok stamp)
          /\ ~ Forall encodable (folder ++ fileName))
  /\ (downloadUrlFor conf now folder fileName derived expires
        = Raise (AssertionError (lit "No hmac-key set!"))
      <-> (exists stamp, expiry_stamp now expires = Ok stamp)
          /\ Forall encodable (folder ++ fileName)
          /\ viur_file_hmacKey conf = None)
  /\ (forall e,
        downloadUrlFor conf now folder fileName derived expires = Raise e ->
        e = OverflowError \/ e = UnicodeEncodeError
        \/ e = AssertionError (lit "No hmac-key set!")).
Proof.
  rewrite downloadUrlFor_eq.
  destruct (expiry_stamp now expires) as [stamp|e0] eqn:Es.
  - pose proof (expiry_stamp_plain _ _ _ Es) as Hp.
    pose proof (payload_encodable folder fileName stamp derived Hp) as Hpe.
    assert (NoOv : ~ exists td, expires = Some td
                     /\ timedelta_bool td = true
                     /\ ~ expiry_in_range now td).
    { intros Hex.
      assert (expiry_stamp now expires = Raise OverflowError)
        by (apply expiry_stamp_Raise; auto).
      congruence. }
    assert (Hst : exists s, Ok stamp = Ok s) by eauto.
    cbn [bind].
    destruct (encode_utf8 (file_path folder fileName derived ++ [0] ++ stamp))
      as [payload|e1] eqn:Ee.
    + assert (Henc : Forall encodable (folder ++ fileName))
        by (apply Hpe, encode_utf8_Ok; eauto).
      cbn [bind]. unfold hmacSign.
      destruct (viur_file_hmacKey conf) as [k|]; cbn [bind].
      * split; [|split; [|split]].
        -- split; [discriminate | intros H; contradiction].
        -- split; [discriminate | intros [_ H]; contradiction].
        -- split; [discriminate | intros (_ & _ & H); discriminate].
        -- discriminate.
      * split; [|split; [|split]].
        -- split; [discriminate | intros H; contradiction].
        -- split; [discriminate | intros [_ H]; contradiction].
        -- split; [intros _; auto | reflexivity].
        -- intros e [= <-]. auto.
    + pose proof (encode_utf8_Raise _ _ Ee) as ->.
      assert (Hn : ~ Forall encodable (folder ++ fileName)).
      { intros H. apply Hpe, encode_utf8_Ok in H as [b Hb]. congruence. }
      cbn [bind]. split; [|split; [|split]].
      * split; [discriminate | intros H; contradiction].
      * split; [intros _; auto | reflexivity].
      * split; [discriminate | intros (_ & H & _); contradiction].
      * intros e [= <-]. auto.
  - pose proof (proj1 (expiry_stamp_Raise _ _ _) Es) as [-> Hex].
    cbn [bind]. split; [|split; [|split]].
    + split; [intros _; exact Hex | reflexivity].
    + split; [discriminate | intros [[s Hs] _]; discriminate].
    + split; [discriminate | intros [[s Hs] _]; discriminate].
    + intros e [= <-]. auto.
Qed.

Lemma downloadUrlFor_failures_witness :
  downloadUrlFor testkey_conf (jan_1_2024 0 0 0) (lit "abc") (lit "img.png")
    false (Some (timedelta_new 3000000 0 0)) = Raise OverflowError.
Proof.
  apply (proj1 (downloadUrlFor_failures testkey_conf (jan_1_2024 0 0 0)
                  (lit "abc") (lit "img.png") false
                  (Some (timedelta_new 3000000 0 0)))).
  exists (timedelta_new 3000000 0 0).
  split; [reflexivity|]. split; [reflexivity|].
  unfold expiry_in_range. vm_compute. intros [_ H]. apply H. reflexivity.
Defined.

(** X18. Only the joined path is signed, so the split into folder and
    file name is not: a folder [a/source/b] with file [c] gets the very
    URL that folder [a] with file [b/source/c] gets, and likewise for
    derived files. *)
Theorem downloadUrlFor_joined_path (conf : Conf) (now : datetime)
    (a b c : str) (expires : option timedelta) :
  downloadUrlFor conf now (a ++ lit "/source/" ++ b) c false expires =
  downloadUrlFor conf now a (b ++ lit "/source/" ++ c) false expires
  /\ downloadUrlFor conf now (a ++ lit "/derived/" ++ b) c true expires =
     downloadUrlFor conf now a (b ++ lit "/derived/" ++ c) true expires.
Proof.
  rewrite !downloadUrlFor_eq. unfold file_path.
  split; repeat rewrite <- app_assoc; reflexivity.
Qed.

Lemma app_inj_length {A} (a b c d : list A) :
  length c = length d -> a ++ c = b ++ d -> a = b /\ c = d.
Proof.
  intros Hl H.
  assert (La : length a = length b).
  { apply (f_equal (@length A)) in H. rewrite !length_app in H. lia. }
  revert b La H. induction a as [|x a IH]; intros [|y b] La H;
    try discriminate; cbn in *.
  - auto.
  - injection H as -> H. injection La as La.
    destruct (IH b La H) as [-> ->]. auto.
Qed.

Lemma app_nul_inj (a b s1 s2 : str) :
  no_nul s1 -> no_nul s2 -> a ++ 0 :: s1 = b ++ 0 :: s2 ->
  a = b /\ s1 = s2.
Proof.
  unfold no_nul. intros H1 H2. revert b.
  induction a as [|x a IH]; intros [|y b] H; cbn in H.
  - injection H as ->. auto.
  - injection H as <- H. subst s1. exfalso.
    apply Forall_app in H1 as [_ H1]. inversion H1; subst. congruence.
  - injection H as -> H. subst s2. exfalso.
    apply Forall_app in H2 as [_ H2]. inversion H2; subst. congruence.
  - injection H as -> H. destruct (IH b H) as [-> ->]. auto.
Qed.

Lemma encode_utf8_inj (s t : str) (b : bytes) :
  encode_utf8 s = Ok b -> encode_utf8 t = Ok b -> s = t.
Proof.
  intros Hs Ht. apply decode_encode_utf8 in Hs, Ht. congruence.
Qed.

Lemma urlsafe_b64encode_inj (p q : bytes) :
  Forall is_byte p -> Forall is_byte q ->
  urlsafe_b64encode p = urlsafe_b64encode q -> p = q.
Proof.
  intros Hp Hq H. apply urlsafe_b64decode_encode in Hp, Hq.
  rewrite H in Hp. congruence.
Qed.

(** X19. The URL tells what was signed: two calls that return the same
    URL, with whatever keys and at whatever times, were made for the same
    joined path and carry the same expiry stamp. *)
Theorem downloadUrlFor_url_determines_path (conf1 conf2 : Conf)
    (now1 now2 : datetime) (folder1 fileName1 folder2 fileName2 : str)
    (derived1 derived2 : bool) (expires1 expires2 : option timedelta)
    (url : str) :
  downloadUrlFor conf1 now1 folder1 fileName1 derived1 expires1 = Ok url ->
  downloadUrlFor conf2 now2 folder2 fileName2 derived2 expires2 = Ok url ->
  file_path folder1 fileName1 derived1 = file_path folder2 fileName2 derived2
  /\ expiry_stamp now1 expires1 = expiry_stamp now2 expires2.
Proof.
  intros H1 H2.
  apply downloadUrlFor_inv in H1 as (s1 & p1 & g1 & Hs1 & Hp1 & Hg1 & E1).
  apply downloadUrlFor_inv in H2 as (s2 & p2 & g2 & Hs2 & Hp2 & Hg2 & E2).
  rewrite E1 in E2. apply app_inv_head in E2.
  apply hmacSign_lower_hex in Hg1 as [L1 _].
  apply hmacSign_lower_hex in Hg2 as [L2 _].
  apply app_inj_length in E2 as [E2 _];
    [|rewrite !length_app; congruence].
  apply urlsafe_b64encode_inj in E2; eauto using encode_utf8_bytes.
  subst p2.
  pose proof (encode_utf8_inj _ _ _ Hp1 Hp2) as E.
  apply app_nul_inj in E as [Ef Est];
    try (eapply plain_no_nul, expiry_stamp_plain; eauto).
  split; [exact Ef | congruence].
Qed.

Lemma downloadUrlFor_url_determines_path_witness :
  file_path (lit "abc") (lit "img.png") false
    = file_path (lit "abc") (lit "img.png") false
  /\ expiry_stamp (jan_1_2024 0 0 10) (Some (timedelta_hours 1))
     = expiry_stamp (jan_1_2024 0 0 40) (Some (timedelta_hours 1)).
Proof.
  apply (downloadUrlFor_url_determines_path testkey_conf testkey_conf
           (jan_1_2024 0 0 10) (jan_1_2024 0 0 40) (lit "abc")
           (lit "img.png") (lit "abc") (lit "img.png") false false
           (Some (timedelta_hours 1)) (Some (timedelta_hours 1))
           (lit "/file/download/YWJjL3NvdXJjZS9pbWcucG5nADIwMjQwMTAxMDEwMA==?sig=68d21ccf514d82d640b76f3ce8a7dbe6869a2e68dd803cc964d89ec136cf49b2c2f21c52b4adcb2440ec99869e2addcd"));
    vm_compute; reflexivity.
Defined.

(** ** [seoUrlToEntry], [seoUrlToFunction] *)

Lemma str_join_snoc (sep : str) (parts : list str) (x : str) :
  parts <> [] ->
  str_join sep (parts ++ [x]) = str_join sep parts ++ sep ++ x.
Proof.
  destruct parts as [|p r]; [contradiction|]. intros _. cbn.
  rewrite flat_map_app. cbn. now rewrite app_nil_r, <- !app_assoc.
Qed.

Lemma all_str_snoc (pc : list (option str)) (x : option str) :
  all_str (pc ++ [x]) =
    match all_str pc, x with
    | Some parts, Some s => Some (parts ++ [s])
    | _, _ => None
    end.
Proof.
  induction pc as [|[p|] pc IH]; cbn.
  - destruct x; reflexivity.
  - rewrite IH. destruct (all_str pc), x; reflexivity.
  - reflexivity.
Qed.

Lemma join_path_snoc (pc : list (option str)) (x : str) :
  pc <> [] ->
  join_path (pc ++ [Some x]) =
    (u <- join_path pc ;; Ok (u ++ lit "/" ++ x)).
Proof.
  intros Hne. unfold join_path. rewrite all_str_snoc.
  destruct (all_str pc) as [parts|] eqn:E; [|reflexivity].
  cbn [bind]. rewrite str_join_snoc; [reflexivity|].
  intros ->. destruct pc as [|[p|] pc]; cbn in E; try discriminate;
    [contradiction|].
  destruct (all_str pc); discriminate.
Qed.

Lemma join_path_root (rest : list (option str)) (url : str) :
  join_path (Some [] :: rest) = Ok url ->
  (url = [] /\ rest = []) \/ (hd_error url = Some 47 /\ rest <> []).
Proof.
  unfold join_path. cbn [all_str].
  destruct (all_str rest) as [parts|] eqn:E; [|discriminate].
  cbn. intros H. apply Ok_inj in H. subst url.
  destruct rest as [|x rest]; [left|right].
  - cbn in E. injection E as <-. auto.
  - split; [|discriminate].
    destruct x as [p|]; [|discriminate]. cbn in E.
    destruct (all_str rest); [|discriminate].
    injection E as <-. reflexivity.
Qed.

Lemma join_path_Raise (pc : list (option str)) (e : exn) :
  join_path pc = Raise e -> e = TypeError /\ In None pc.
Proof.
  unfold join_path. destruct (all_str pc) eqn:E; [discriminate|].
  intros [= <-]. split; [reflexivity|].
  induction pc as [|[p|] pc IH]; cbn in E; [discriminate| |now left].
  right. apply IH. destruct (all_str pc); [discriminate|reflexivity].
Qed.

(** The components [seoUrlToEntry] starts from: the empty root, the
    language in the url method, and the module. *)
Lemma seoUrlToEntry_cases (conf : SeoConf) (lang : option str)
    (module : str) (entry : option EntryObj) :
  let base :=
    (if str_eqb (viur_languageMethod conf) (lit "url")
     then [Some []] ++ [lang] else [Some []])
    ++ [Some (translate_module conf lang module)] in
  seoUrlToEntry conf lang module None = join_path base
  /\ (seoUrlToEntry conf lang module entry = join_path base
      \/ exists v, seoUrlToEntry conf lang module entry
                   = join_path (base ++ [Some (py_str v)])).
Proof.
  cbv zeta. split; [reflexivity|].
  unfold seoUrlToEntry.
  destruct entry as [e|]; [|now left].
  destruct (entry_bool e); cbn [negb]; [|now left].
  destruct (entry_viurCurrentSeoKeys e) as [keys|]; [|now left].
  destruct (match lang with Some l => keys l | None => None end);
    [right; eauto|].
  destruct (entry_key e); [right; eauto|].
  destruct (entry_name e); [right; eauto | now left].
Qed.

(** X20. [seoUrlToEntry] raises, a [TypeError], exactly when the
    language method is ["url"] and no language is set; otherwise it
    returns a path that starts with a slash. *)
Theorem seoUrlToEntry_TypeError (conf : SeoConf) (lang : option str)
    (module : str) (entry : option EntryObj) :
  (seoUrlToEntry conf lang module entry = Raise TypeError
   <-> viur_languageMethod conf = lit "url" /\ lang = None)
  /\ (forall e, seoUrlToEntry conf lang module entry = Raise e ->
                e = TypeError)
  /\ (forall url, seoUrlToEntry conf lang module entry = Ok url ->
                  hd_error url = Some 47).
Proof.
  destruct (seoUrlToEntry_cases conf lang module entry) as [_ C].
  cbv zeta in C.
  assert (M : str_eqb (viur_languageMethod conf) (lit "url") = true
              <-> viur_languageMethod conf = lit "url")
    by apply str_eqb_eq.
  destruct (str_eqb (viur_languageMethod conf) (lit "url")) eqn:E.
  - destruct lang as [l|].
    + assert (R : exists u, seoUrlToEntry conf (Some l) module entry
                            = Ok (47 :: u)).
      { destruct C as [C|[v C]]; rewrite C; cbn; eauto. }
      destruct R as [u R]. rewrite R.
      split; [split; [discriminate | intros [_ ?]; discriminate]|].
      split; [discriminate|]. intros url H. apply Ok_inj in H. now subst.
    + assert (R : seoUrlToEntry conf None module entry = Raise TypeError).
      { destruct C as [C|[v C]]; rewrite C; reflexivity. }
      rewrite R.
      split; [split; [intros _; split; [now apply M | reflexivity]
                     | reflexivity]|].
      split; [intros e [= <-]; reflexivity | discriminate].
  - assert (R : exists u, seoUrlToEntry conf lang module entry
                          = Ok (47 :: u)).
    { destruct C as [C|[v C]]; rewrite C; cbn; eauto. }
    destruct R as [u R]. rewrite R.
    split; [split; [discriminate|]|].
    + intros [H _]. apply M in H. discriminate.
    + split; [discriminate|]. intros url H. apply Ok_inj in H. now subst.
Qed.

(** X21. The URL of an entry lies below the URL of its module. It is
    the module's URL itself when the entry is missing or falsy or has no
    [viurCurrentSeoKeys]; otherwise it is that URL followed by a slash and
    one more segment, which is [str()] of the SEO key of the current
    language if there is one, else of the entry's key, else of its name;
    an entry that has none of the three gets the module's URL. *)
Theorem seoUrlToEntry_below_module (conf : SeoConf) (lang : option str)
    (module : str) (entry : option EntryObj) (moduleUrl : str) :
  seoUrlToEntry conf lang module None = Ok moduleUrl ->
  let url := seoUrlToEntry conf lang module entry in
  let below (v : pyobj) : result str :=
    Ok (moduleUrl ++ lit "/" ++ py_str v) in
  match entry with
  | None => url = Ok moduleUrl
  | Some e =>
      (entry_bool e = false \/ entry_viurCurrentSeoKeys e = None ->
       url = Ok moduleUrl)
      /\ (entry_bool e = true ->
          forall currentSeoKeys,
            entry_viurCurrentSeoKeys e = Some currentSeoKeys ->
            (forall l seoKey,
               lang = Some l -> currentSeoKeys l = Some seoKey ->
               url = below seoKey)
            /\ ((forall l, lang = Some l -> currentSeoKeys l = None) ->
                (forall key, entry_key e = Some key -> url = below key)
                /\ (entry_key e = None ->
                    (forall name, entry_name e = Some name ->
                                  url = below name)
                    /\ (entry_name e = None -> url = Ok moduleUrl))))
  end.
Proof.
  intros H. cbv zeta.
  destruct (seoUrlToEntry_cases conf lang module None) as [B _].
  cbv zeta in B. rewrite B in H.
  assert (S : forall v,
             join_path
               (((if str_eqb (viur_languageMethod conf) (lit "url")
                  then [Some []] ++ [lang] else [Some []])
                 ++ [Some (translate_module conf lang module)])
                ++ [Some (py_str v)])
             = Ok (moduleUrl ++ lit "/" ++ py_str v)).
  { intros v. rewrite join_path_snoc, H; [reflexivity|].
    destruct (str_eqb _ _); discriminate. }
  destruct entry as [e|]; [|rewrite B; exact H].
  unfold seoUrlToEntry. cbv zeta. split.
  - intros [Hb|Hk].
    + rewrite Hb. cbn [negb]. exact H.
    + destruct (entry_bool e); cbn [negb]; [rewrite Hk|]; exact H.
  - intros Hb keys Hk. rewrite Hb, Hk. cbn [negb]. split.
    + intros l seoKey -> Hl. rewrite Hl. apply S.
    + intros Hno.
      assert (N : match lang with Some l => keys l | None => None end
                  = None)
        by (destruct lang as [l|]; [now apply Hno | reflexivity]).
      rewrite N. split; [intros key ->; apply S|].
      intros ->. split; [intros name ->; apply S | intros ->; exact H].
Qed.

Lemma seoUrlToEntry_TypeError_witness :
  seoUrlToEntry (sample_seo_conf (lit "url")) None (lit "shop")
    (Some sample_entry) = Raise TypeError.
Proof.
  apply (proj1 (seoUrlToEntry_TypeError (sample_seo_conf (lit "url")) None
                  (lit "shop") (Some sample_entry))).
  split; reflexivity.
Defined.

Lemma seoUrlToEntry_below_module_witness :
  seoUrlToEntry (sample_seo_conf (lit "url")) (Some (lit "de"))
    (lit "shop") None = Ok (lit "/de/shop")
  /\ seoUrlToEntry (sample_seo_conf (lit "url")) (Some (lit "de"))
       (lit "shop") (Some sample_entry)
     = Ok (lit "/de/shop" ++ lit "/" ++ py_str (OInt 42)).
Proof.
  split; [reflexivity|].
  refine (proj1 (proj2 (proj2
    (seoUrlToEntry_below_module (sample_seo_conf (lit "url"))
       (Some (lit "de")) (lit "shop") (Some sample_entry) (lit "/de/shop")
       eq_refl) eq_refl no_entries eq_refl) _) (OInt 42) eq_refl).
  intros l _. reflexivity.
Defined.

(** X22. [seoUrlToFunction] raises nothing but a [TypeError]; what it
    returns is a path that starts with a slash, or the empty string. It is
    the empty string when the language is not part of the path and neither
    the module, the renderer nor the function is found below the
    resolver. *)
Theorem seoUrlToFunction_result (conf : SeoConf) (mainResolver : resolver)
    (lang : option str) (module function : str) (render : option str) :
  (forall e,
     seoUrlToFunction conf mainResolver lang module function render
       = Raise e -> e = TypeError)
  /\ (forall url,
        seoUrlToFunction conf mainResolver lang module function render
          = Ok url -> url = [] \/ hd_error url = Some 47)
  /\ (forall entries,
        mainResolver = RDict entries ->
        viur_languageMethod conf <> lit "url" ->
        entries (translate_module conf lang module) = None ->
        (forall r, render = Some r -> entries r = None) ->
        entries function = None ->
        seoUrlToFunction conf mainResolver lang module function render
          = Ok []).
Proof.
  assert (G : forall pc (r : result str),
            r = join_path (Some [] :: pc) ->
            (forall e, r = Raise e -> e = TypeError)
            /\ (forall url, r = Ok url ->
                            url = [] \/ hd_error url = Some 47)).
  { intros pc r ->. split.
    - intros e H. now apply join_path_Raise in H.
    - intros url H. apply join_path_root in H. tauto. }
  assert (T : forall r : result str,
            r = Raise TypeError ->
            (forall e, r = Raise e -> e = TypeError)
            /\ (forall url, r = Ok url ->
                            url = [] \/ hd_error url = Some 47)).
  { intros r ->. split; [intros e [= <-]; reflexivity | discriminate]. }
  split; [|split].
  1, 2: unfold seoUrlToFunction;
    set (m := translate_module conf lang module);
    set (pc0 := if str_eqb (viur_languageMethod conf) (lit "url")
                then [Some []; lang] else [Some []]);
    assert (P0 : exists t, pc0 = Some [] :: t)
      by (subst pc0; destruct (str_eqb _ _); eauto);
    destruct P0 as [t0 P0]; rewrite P0; clearbody pc0;
    destruct mainResolver as [entries|map]; cbn [resolver_get bind];
    [|apply T; reflexivity];
    destruct (entries m) as [sub|];
    destruct render as [[|c r]|]; cbn [bind];
    repeat match goal with
      | |- context [resolver_get ?o ?n] =>
          destruct o; cbn [resolver_get bind]
      | |- context [match ?d ?n with Some _ => _ | None => _ end] =>
          destruct (d n); cbn [bind]
      end;
    first [ apply T; reflexivity
          | eapply (proj1 (G _ _ eq_refl))
          | eapply (proj2 (G _ _ eq_refl)) ].
  intros entries -> Hm Hmod Hr Hf.
  unfold seoUrlToFunction.
  destruct (str_eqb (viur_languageMethod conf) (lit "url")) eqn:E;
    [apply str_eqb_eq in E; contradiction|].
  cbn [resolver_get bind]. rewrite Hmod.
  destruct render as [[|c r]|]; cbn [resolver_get bind];
    try rewrite (Hr _ eq_refl); cbn [resolver_get bind]; rewrite Hf;
    reflexivity.
Qed.

Lemma seoUrlToFunction_result_witness :
  seoUrlToFunction (sample_seo_conf (lit "cookie")) sample_resolver None
    (lit "blog") (lit "list") None = Ok [].
Proof.
  apply (proj2 (proj2 (seoUrlToFunction_result
                         (sample_seo_conf (lit "cookie")) sample_resolver
                         None (lit "blog") (lit "list") None))
           _ eq_refl).
  - discriminate.
  - reflexivity.
  - intros r [=].
  - reflexivity.
Defined.
